(** * Part affinity fields of sleap.nn.data.edge_maps

    A shallow embedding of [distance_to_edge], [make_edge_maps], [make_pafs],
    [make_multi_pafs], [get_edge_points] and of
    [PartAffinityFieldsGenerator.transform_dataset], with the properties the
    specification states about them.

    Numbers.  The tensors of the source hold IEEE floats.  The model keeps
    the special values the code relies on (NaN and the two infinities) and
    computes on finite values with exact real arithmetic: rounding, overflow,
    underflow and the sign of zero are outside the model.  Where a statement
    of the specification asks for an exact value, the computation of one
    entry of [distance_to_edge] is also run on binary32 numbers
    ([Floats.SpecFloat]), to show what rounding does to it.

    Tensors.  A tensor whose last axis has size 2 is a list (of lists, ...)
    of points; a tensor is rectangular, so a nested list stands for one only
    when its rows have a common length, which the statements ask for where
    it matters. *)

From Stdlib Require Import Reals Lra Lia List Bool Permutation ZArith.
From Stdlib Require Import Floats.SpecFloat.
From stdpp Require Import gmap strings.
Import ListNotations.

Open Scope R_scope.

(** ** Numbers *)

Inductive num : Type :=
| Fin (r : R)
| PInf
| NInf
| NaN.

Definition Rltb (a b : R) : bool := if Rlt_dec a b then true else false.
Definition Reqb (a b : R) : bool := if Req_dec_T a b then true else false.

Definition is_nan (x : num) : bool :=
  match x with NaN => true | _ => false end.

Definition nneg (x : num) : num :=
  match x with
  | Fin a => Fin (- a)
  | PInf => NInf
  | NInf => PInf
  | NaN => NaN
  end.

Definition nadd (x y : num) : num :=
  match x, y with
  | NaN, _ | _, NaN => NaN
  | Fin a, Fin b => Fin (a + b)
  | PInf, NInf | NInf, PInf => NaN
  | PInf, _ | _, PInf => PInf
  | NInf, _ | _, NInf => NInf
  end.

Definition nsub (x y : num) : num := nadd x (nneg y).

(** An infinity of the sign of [a], NaN when [a] is zero. *)
Definition inf_of_sign (a : R) : num :=
  if Rltb 0 a then PInf else if Rltb a 0 then NInf else NaN.

Definition nmul (x y : num) : num :=
  match x, y with
  | NaN, _ | _, NaN => NaN
  | Fin a, Fin b => Fin (a * b)
  | Fin a, PInf | PInf, Fin a => inf_of_sign a
  | Fin a, NInf | NInf, Fin a => inf_of_sign (- a)
  | PInf, PInf | NInf, NInf => PInf
  | PInf, NInf | NInf, PInf => NInf
  end.

Definition ndiv (x y : num) : num :=
  match x, y with
  | NaN, _ | _, NaN => NaN
  | Fin a, Fin b => if Reqb b 0 then inf_of_sign a else Fin (a / b)
  | Fin _, (PInf | NInf) => Fin 0
  | PInf, Fin b => if Rltb b 0 then NInf else PInf
  | NInf, Fin b => if Rltb b 0 then PInf else NInf
  | (PInf | NInf), (PInf | NInf) => NaN
  end.

Definition nsquare (x : num) : num := nmul x x.

Definition nsqrt (x : num) : num :=
  match x with
  | Fin a => if Rltb a 0 then NaN else Fin (sqrt a)
  | PInf => PInf
  | NInf => NaN
  | NaN => NaN
  end.

Definition nexp (x : num) : num :=
  match x with
  | Fin a => Fin (exp a)
  | PInf => PInf
  | NInf => Fin 0
  | NaN => NaN
  end.

(** [tf.maximum] and [tf.minimum]; a NaN operand gives NaN. *)
Definition nmax (x y : num) : num :=
  match x, y with
  | NaN, _ | _, NaN => NaN
  | PInf, _ | _, PInf => PInf
  | NInf, z | z, NInf => z
  | Fin a, Fin b => Fin (Rmax a b)
  end.

Definition nmin (x y : num) : num :=
  match x, y with
  | NaN, _ | _, NaN => NaN
  | NInf, _ | _, NInf => NInf
  | PInf, z | z, PInf => z
  | Fin a, Fin b => Fin (Rmin a b)
  end.

(** [tf.clip_by_value t lo hi] is [maximum (minimum t hi) lo]. *)
Definition clip_by_value (t lo hi : num) : num := nmax (nmin t hi) lo.

(** Comparisons; every comparison with NaN is false. *)
Definition nlt (x y : num) : bool :=
  match x, y with
  | NaN, _ | _, NaN => false
  | Fin a, Fin b => Rltb a b
  | NInf, (Fin _ | PInf) => true
  | Fin _, PInf => true
  | _, _ => false
  end.

Definition ngt (x y : num) : bool := nlt y x.

(** ** Points and tensors *)

(** The last axis of the tensors of points: the x- and y-coordinate. *)
Definition point : Type := (num * num)%type.

Definition pt_add (p q : point) : point := (nadd (fst p) (fst q), nadd (snd p) (snd q)).
Definition pt_sub (p q : point) : point := (nsub (fst p) (fst q), nsub (snd p) (snd q)).
Definition pt_mul (p q : point) : point := (nmul (fst p) (fst q), nmul (snd p) (snd q)).
Definition pt_square (p : point) : point := (nsquare (fst p), nsquare (snd p)).
(** A scalar broadcast over the last axis. *)
Definition pt_scale (c : num) (p : point) : point := (nmul c (fst p), nmul c (snd p)).
Definition pt_div (p : point) (c : num) : point := (ndiv (fst p) c, ndiv (snd p) c).
(** [tf.reduce_sum] over the last axis. *)
Definition reduce_sum (p : point) : num := nadd (fst p) (snd p).

(** A tensor of shape (n, [dim1], 2).  The size of the middle axis is kept
    apart: it is known when there are no rows too. *)
Record tensor3 : Type := Tensor3 { dim1 : nat; items : list (list point) }.

Definition rect3 (t : tensor3) : Prop :=
  Forall (fun row => length row = dim1 t) (items t).

(** A field of shape (height, width, n_edges, 2), and a map of shape
    (height, width, n_edges). *)
Definition field : Type := list (list (list point)).
Definition nmap : Type := list (list (list num)).

(** ** distance_to_edge *)

(** [points] has shape (d_0, d_1, 2), the edges have shape (n_edges, 2), the
    result has shape (d_0, d_1, n_edges).  The projections are summed over
    axis 3 of the (d_0, d_1, n_edges, 2) tensor of products: the axis of the
    coordinates when, and only when, [points] has rank 3, as the sampling
    grid that [make_edge_maps] passes.  Points of rank 1 and 2 are the
    matter of [distance_to_edge_at_rank] below. *)
Definition distance_to_edge (points : list (list point))
    (edge_source edge_destination : list point) : nmap :=
  let direction_vector := zip_with pt_sub edge_destination edge_source in
  let edge_length :=
    map (fun d => nmax (reduce_sum (pt_square d)) (Fin 1)) direction_vector in
  map (map (fun p =>
    let source_relative_points := map (pt_sub p) edge_source in
    let line_projections :=
      zip_with ndiv
        (map reduce_sum (zip_with pt_mul source_relative_points direction_vector))
        edge_length in
    let line_projections :=
      map (fun t => clip_by_value t (Fin 0) (Fin 1)) line_projections in
    map (fun v => reduce_sum (pt_square v))
      (zip_with pt_sub
         (zip_with pt_scale line_projections direction_vector)
         source_relative_points)))
    points.



(** ** make_edge_maps *)

(** Modelled from the spec: [gaussian_pdf] of sleap.nn.data.utils, which is
    not among the sources: [exp(-x^2 / (2*sigma^2))], not normalised, applied
    to each entry of the distance field. *)
Definition gaussian_pdf (x sigma : num) : num :=
  nexp (ndiv (nneg (nsquare x)) (nmul (Fin 2) (nsquare sigma))).

(** [tf.stack (tf.meshgrid xv yv) axis=-1]: entry (i, j) is (xv[j], yv[i]). *)
Definition sampling_grid (xv yv : list num) : list (list point) :=
  map (fun y => map (fun x => (x, y)) xv) yv.

Definition make_edge_maps (xv yv : list num)
    (edge_source edge_destination : list point) (sigma : num) : nmap :=
  let sampling_grid := sampling_grid xv yv in
  let distances := distance_to_edge sampling_grid edge_source edge_destination in
  map (map (map (fun x => gaussian_pdf x sigma))) distances.

(** ** make_pafs *)

(** [tf.linalg.norm] over the last axis. *)
Definition norm (v : point) : num := nsqrt (reduce_sum (pt_square v)).

Definition unit_vectors (edge_source edge_destination : list point) : list point :=
  map (fun v => pt_div v (norm v)) (zip_with pt_sub edge_destination edge_source).

Definition make_pafs (xv yv : list num)
    (edge_source edge_destination : list point) (sigma : num) : field :=
  let unit_vectors := unit_vectors edge_source edge_destination in
  let edge_confidence_map :=
    make_edge_maps xv yv edge_source edge_destination sigma in
  map (map (fun confs => zip_with pt_scale confs unit_vectors)) edge_confidence_map.

(** ** make_multi_pafs *)

Definition zeros (grid_height grid_width n_edges : nat) : field :=
  repeat (repeat (repeat (Fin 0, Fin 0) n_edges) grid_width) grid_height.

(** [tf.where (tf.math.is_nan paf) 0.0 paf], entry by entry. *)
Definition nan_to_zero (x : num) : num := if is_nan x then Fin 0 else x.
Definition pt_nan_to_zero (p : point) : point :=
  (nan_to_zero (fst p), nan_to_zero (snd p)).

Definition field_add (f g : field) : field :=
  zip_with (zip_with (zip_with pt_add)) f g.

(** [tf.gather t i axis=0]; the loop below only asks for rows in range. *)
Definition gather0 (t : tensor3) (i : nat) : list point := nth i (items t) [].

Definition make_multi_pafs (xv yv : list num)
    (edge_sources edge_destinations : tensor3) (sigma : num) : field :=
  let grid_height := length yv in
  let grid_width := length xv in
  let n_edges := dim1 edge_sources in
  let n_instances := length (items edge_sources) in
  fold_left
    (fun pafs i =>
       let paf :=
         make_pafs xv yv (gather0 edge_sources i) (gather0 edge_destinations i)
           sigma in
       field_add pafs (map (map (map pt_nan_to_zero)) paf))
    (seq 0 n_instances)
    (zeros grid_height grid_width n_edges).

(** ** get_edge_points *)

(** [tf.gather t inds axis=1]: every row is indexed by [inds]; an index that
    is not a position of the row raises. *)
Definition gather1 (t : tensor3) (inds : list nat) : option tensor3 :=
  rows ← mapM (fun row : list point => mapM (fun i => row !! i) inds) (items t);
  Some {| dim1 := length inds; items := rows |}.

Definition get_edge_points (instances : tensor3) (edge_inds : list (nat * nat))
  : option (tensor3 * tensor3) :=
  let source_inds := map fst edge_inds in
  let destination_inds := map snd edge_inds in
  edge_sources ← gather1 instances source_inds;
  edge_destinations ← gather1 instances destination_inds;
  Some (edge_sources, edge_destinations).

(** [get_edge_points] as [generate_pafs] calls it, on the tensor
    [tf.cast skeleton.edge_inds tf.int32] of the list of pairs of the
    skeleton: a list of n > 0 pairs casts to a tensor of shape (n, 2); the
    empty list of a skeleton without edges casts to a tensor of shape (0,),
    of rank 1, on which [tf.gather edge_inds 0 axis=1] raises. *)
Definition get_edge_points_cast (instances : tensor3)
    (edge_inds : list (nat * nat)) : option (tensor3 * tensor3) :=
  match edge_inds with
  | [] => None
  | _ :: _ => get_edge_points instances edge_inds
  end.

(** ** PartAffinityFieldsGenerator *)

(** The values a record holds.  [VTensor] is a dense tensor given by its
    shape and its entries in row-major order (the image); [VInstances] is the
    (n_instances, n_nodes, 2) tensor of keypoints; [VInts] a vector of
    integers (the skeleton indices); [VField] and [VFlat] are the generated
    fields, of shape (height, width, n_edges, 2) and, flattened,
    (height, width, n_edges * 2). *)
Inductive value : Type :=
| VTensor (shape : list nat) (data : list num)
| VInstances (t : tensor3)
| VInts (inds : list Z)
| VField (f : field)
| VFlat (f : nmap).

(** A record of the stream: a dict from keys to tensors. *)
Abbreviation example := (gmap string value).

(** What the generator reads of a [sleap.Skeleton]: its edges, as pairs of
    node indices (source, destination). *)
Record Skeleton : Type := { edge_inds : list (nat * nat) }.

Record PartAffinityFieldsGenerator : Type := {
  sigma : num;
  output_stride : Z;
  skeletons : option (list Skeleton);
  flatten_channels : bool
}.

Definition input_keys : list string := ["image"; "instances"; "skeleton_inds"]%string.
Definition output_keys : list string := input_keys ++ ["part_affinity_fields"%string].

Definition as_instances (v : value) : option tensor3 :=
  match v with VInstances t => Some t | _ => None end.

Definition tensor_shape (v : value) : option (list nat) :=
  match v with VTensor shape _ => Some shape | _ => None end.

(** The test of one keypoint: both coordinates above 0 and below the last
    grid coordinate ([tf.reduce_all] over the last axis). *)
Definition point_in_img (xmax ymax : num) (p : point) : bool :=
  (ngt (fst p) (Fin 0) && nlt (fst p) xmax) && (ngt (snd p) (Fin 0) && nlt (snd p) ymax).

(** [tf.reduce_any] over the keypoints of each instance. *)
Definition in_img (xmax ymax : num) (instances : tensor3) : list bool :=
  map (existsb (point_in_img xmax ymax)) (items instances).

(** [tf.boolean_mask] along the first axis. *)
Definition boolean_mask (t : tensor3) (mask : list bool) : tensor3 :=
  {| dim1 := dim1 t;
     items := map fst (List.filter snd (zip (items t) mask)) |}.

(** [tf.ensure_shape]: the tensor itself when its shape fits, an error
    otherwise. *)
Definition ensure_dim1 (n : nat) (t : tensor3) : option tensor3 :=
  if Nat.eqb (dim1 t) n then Some t else None.

Definition has_shape (grid_height grid_width n_edges : nat) (f : field) : bool :=
  Nat.eqb (length f) grid_height
  && forallb (fun row => Nat.eqb (length row) grid_width
                && forallb (fun cell : list point => Nat.eqb (length cell) n_edges) row) f.

Definition ensure_shape (grid_height grid_width n_edges : nat) (f : field)
  : option field :=
  if has_shape grid_height grid_width n_edges f then Some f else None.

(** [tf.reshape pafs [grid_height, grid_width, n_edges * 2]]. *)
Definition flatten (f : field) : nmap :=
  map (map (flat_map (fun p : point => [fst p; snd p]))) f.

(** The local function [generate_pafs] of [transform_dataset], with the
    variables it closes over as arguments. *)
Definition generate_pafs (self : PartAffinityFieldsGenerator)
    (xv yv : list num) (edge_inds : list (nat * nat)) (ex : example)
  : option example :=
  let grid_height := length yv in
  let grid_width := length xv in
  let n_edges := length edge_inds in
  instances ← (ex !! "instances"%string) ≫= as_instances;
  xmax ← last xv;
  ymax ← last yv;
  let instances := boolean_mask instances (in_img xmax ymax instances) in
  '(edge_sources, edge_destinations) ← get_edge_points_cast instances edge_inds;
  edge_sources ← ensure_dim1 n_edges edge_sources;
  edge_destinations ← ensure_dim1 n_edges edge_destinations;
  let pafs := make_multi_pafs xv yv edge_sources edge_destinations (sigma self) in
  pafs ← ensure_shape grid_height grid_width n_edges pafs;
  let pafs := if flatten_channels self then VFlat (flatten pafs) else VField pafs in
  Some (<["part_affinity_fields"%string := pafs]> ex).

Section Generator.

(** [make_grid_vectors] of sleap.nn.data.utils is not among the sources:
    the stage is modelled over any function from the image height, the
    image width and the output stride to the grid vectors [(xv, yv)], which
    may fail. *)
Variable make_grid_vectors : nat -> nat -> Z -> option (list num * list num).

(** The input dataset is the list of its records; iterating it anew for the
    test example does not change it.  The mapped dataset is given as a
    whole: it is [None] when the set-up or the processing of some record
    raises. *)
Definition transform_dataset (self : PartAffinityFieldsGenerator)
    (input_ds : list example) : option (list example) :=
  test_example ← head input_ds;
  shape ← (test_example !! "image"%string) ≫= tensor_shape;
  image_height ← shape !! 0%nat;
  image_width ← shape !! 1%nat;
  '(xv, yv) ← make_grid_vectors image_height image_width (output_stride self);
  sks ← skeletons self;
  skeleton ← head sks;
  let edge_inds := edge_inds skeleton in
  mapM (generate_pafs self xv yv edge_inds) input_ds.

End Generator.

(** Modelled from the spec: [make_grid_vectors] of sleap.nn.data.utils, which
    is not among the sources: [ceil(size / stride)] coordinates
    [i * stride + stride / 2] per axis, for a stride of at least 1. *)
Definition grid_vector (size : nat) (stride : Z) : list num :=
  map (fun i : nat => Fin (INR i * IZR stride + IZR stride / 2))
    (seq 0 (Z.to_nat ((Z.of_nat size + stride - 1) / stride))).

Definition make_grid_vectors_spec (image_height image_width : nat) (stride : Z)
  : option (list num * list num) :=
  if (1 <=? stride)%Z
  then Some (grid_vector image_width stride, grid_vector image_height stride)
  else None.

(** ** The point-to-segment distance of the specification, over the reals *)

Definition rpoint : Type := (R * R)%type.

(** A point with finite coordinates, as the tensors hold it. *)
Definition fin_pt (p : rpoint) : point := (Fin (fst p), Fin (snd p)).

Definition sq_dist (p q : rpoint) : R :=
  (fst p - fst q) * (fst p - fst q) + (snd p - snd q) * (snd p - snd q).

(** The point at parameter [t] on the line from [s] to [d]. *)
Definition along (s d : rpoint) (t : R) : rpoint :=
  (fst s + t * (fst d - fst s), snd s + t * (snd d - snd s)).

(** The scalar projection of [p - s] onto [d - s], normalised by the squared
    length of the edge clamped below at 1, clipped to [0, 1]. *)
Definition clipped_projection (p s d : rpoint) : R :=
  let len2 := Rmax (sq_dist d s) 1 in
  let proj :=
    ((fst p - fst s) * (fst d - fst s) + (snd p - snd s) * (snd d - snd s)) / len2 in
  Rmax (Rmin proj 1) 0.

(** The squared distance from [p] to the clipped projection point. *)
Definition clamped_segment_distance (p s d : rpoint) : R :=
  sq_dist p (along s d (clipped_projection p s d)).


(** [p] lies on the segment from [s] to [d]. *)
Definition on_segment (p s d : rpoint) : Prop :=
  exists t, 0 <= t <= 1 /\ p = along s d t.

(** ** Definitions used by the statements *)

(** The confidence of the specification: [exp(-x^2 / (2*sigma^2))] at the
    entry [x] of the distance field. *)
Definition confidence (sigma x : R) : R := exp (- (x * x) / (2 * (sigma * sigma))).

(** The entry of [unit_vectors] for the edge from [s] to [d]. *)
Definition edge_direction (s d : point) : point :=
  pt_div (pt_sub d s) (norm (pt_sub d s)).

(** What one instance adds to the running sum: its field with NaN replaced
    by 0. *)
Definition instance_paf (xv yv : list num) (sigma : num)
    (sd : list point * list point) : field :=
  map (map (map pt_nan_to_zero)) (make_pafs xv yv (fst sd) (snd sd) sigma).

Definition fin_or_nan (x : num) : Prop :=
  match x with Fin _ | NaN => True | PInf | NInf => False end.


Definition pt_fin_or_nan (p : point) : Prop := fin_or_nan (fst p) /\ fin_or_nan (snd p).

(** The row of [distance_to_edge] for one point. *)
Definition point_distances (p : point) (edge_source edge_destination : list point)
  : list num :=
  let direction_vector := zip_with pt_sub edge_destination edge_source in
  let edge_length :=
    map (fun d => nmax (reduce_sum (pt_square d)) (Fin 1)) direction_vector in
  let source_relative_points := map (pt_sub p) edge_source in
  let line_projections :=
    zip_with ndiv
      (map reduce_sum (zip_with pt_mul source_relative_points direction_vector))
      edge_length in
  let line_projections :=
    map (fun t => clip_by_value t (Fin 0) (Fin 1)) line_projections in
  map (fun v => reduce_sum (pt_square v))
    (zip_with pt_sub
       (zip_with pt_scale line_projections direction_vector)
       source_relative_points).

(** The entries of [make_pafs] at the grid point [p], one per edge. *)
Definition paf_entries (p : point) (edge_source edge_destination : list point)
    (sigma : num) : list point :=
  zip_with pt_scale
    (map (fun t => gaussian_pdf t sigma)
       (point_distances p edge_source edge_destination))
    (unit_vectors edge_source edge_destination).

(** Entry (i, j, e) of a field: the vector at grid cell (i, j) for edge e. *)
Definition cell (f : field) (i j e : nat) : option point :=
  match nth_error f i with
  | Some row =>
      match nth_error row j with
      | Some c => nth_error c e
      | None => None
      end
  | None => None
  end.



(** Every vector of the field satisfies [P]. *)
Definition all_cells (P : point -> Prop) (f : field) : Prop :=
  Forall (Forall (Forall P)) f.

(** The field has shape (h, w, n, 2). *)
Definition shaped (h w n : nat) (f : field) : Prop :=
  length f = h
  /\ Forall (fun row => length row = w
                        /\ Forall (fun c : list point => length c = n) row) f.

(** The field [generate_pafs] computes from the instances of a record. *)
Definition paf_tensor (self : PartAffinityFieldsGenerator) (xv yv : list num)
    (edge_inds : list (nat * nat)) (t : tensor3) : option value :=
  xmax ← last xv;
  ymax ← last yv;
  let instances := boolean_mask t (in_img xmax ymax t) in
  '(edge_sources, edge_destinations) ← get_edge_points_cast instances edge_inds;
  edge_sources ← ensure_dim1 (length edge_inds) edge_sources;
  edge_destinations ← ensure_dim1 (length edge_inds) edge_destinations;
  pafs ← ensure_shape (length yv) (length xv) (length edge_inds)
            (make_multi_pafs xv yv edge_sources edge_destinations (sigma self));
  Some (if flatten_channels self then VFlat (flatten pafs) else VField pafs).

(** The value stored under "part_affinity_fields". *)
Definition wrap_pafs (self : PartAffinityFieldsGenerator) (pafs : field) : value :=
  if flatten_channels self then VFlat (flatten pafs) else VField pafs.

(** Every edge index is a node index of the instances. *)
Definition edges_in_range (edge_inds : list (nat * nat)) (n_nodes : nat) : Prop :=
  Forall (fun e => (fst e < n_nodes)%nat /\ (snd e < n_nodes)%nat) edge_inds.

(** The map has shape (h, w, c). *)
Definition shaped3 (h w c : nat) (m : nmap) : Prop :=
  length m = h
  /\ Forall (fun row => length row = w
                        /\ Forall (fun cell : list num => length cell = c) row) m.

(** A record the per-record function can process: its instances are a
    rectangular tensor whose node axis covers the edge indices. *)
Definition record_ok (edge_inds : list (nat * nat)) (ex : example) : Prop :=
  exists t, ex !! "instances"%string = Some (VInstances t)
            /\ rect3 t /\ edges_in_range edge_inds (dim1 t).

Definition one_edge_generator : PartAffinityFieldsGenerator :=
  {| sigma := Fin 1; output_stride := 1;
     skeletons := Some [ {| edge_inds := [(0, 1)%nat] |} ];
     flatten_channels := false |}.

(** A record with the three input keys, on an image of 2 by 2 pixels without
    instances. *)
Definition record_plain : example :=
  <["image"%string := VTensor [2; 2; 1]%nat [Fin 0; Fin 0; Fin 0; Fin 0]]>
    (<["instances"%string := VInstances (Tensor3 2 [])]>
       {[ "skeleton_inds"%string := VInts [] ]}).

(** Two records agree on every key but "skeleton_inds". *)
Definition same_but_skeleton_inds (r1 r2 : example) : Prop :=
  forall key : string, key <> "skeleton_inds"%string -> r1 !! key = r2 !! key.

(** The fields of the output records, in order. *)
Definition output_pafs (out : option (list example)) : option (list (option value)) :=
  option_map (map (fun ex : example => ex !! "part_affinity_fields"%string)) out.

(** The generator with another list of skeletons. *)
Definition with_skeletons (self : PartAffinityFieldsGenerator)
    (sks : option (list Skeleton)) : PartAffinityFieldsGenerator :=
  {| sigma := sigma self; output_stride := output_stride self;
     skeletons := sks; flatten_channels := flatten_channels self |}.

(** The distance [distance_to_edge] computes for the point [p] and the edge
    from [s] to [d]. *)
Definition edge_distance (p s d : point) : num :=
  let dv := pt_sub d s in
  let rel := pt_sub p s in
  reduce_sum
    (pt_square
       (pt_sub
          (pt_scale
             (clip_by_value
                (ndiv (reduce_sum (pt_mul rel dv))
                   (nmax (reduce_sum (pt_square dv)) (Fin 1)))
                (Fin 0) (Fin 1))
             dv)
          rel)).

(** The vector [make_pafs] computes at the grid point [p] for the edge from
    [s] to [d]. *)
Definition paf_entry (p : point) (sigma : num) (s d : point) : point :=
  pt_scale (gaussian_pdf (edge_distance p s d) sigma) (edge_direction s d).

(** A coordinate of the point is NaN. *)
Definition has_nan (p : point) : bool := is_nan (fst p) || is_nan (snd p).

(** Entry (i, j, e) of a tensor of rank 3. *)
Definition entry3 {A : Type} (m : list (list (list A))) (i j e : nat) : option A :=
  match nth_error m i with
  | Some row =>
      match nth_error row j with
      | Some c => nth_error c e
      | None => None
      end
  | None => None
  end.

(** A number of [0, 1], or NaN. *)
Definition unit_interval_or_nan (x : num) : Prop :=
  match x with Fin r => 0 <= r <= 1 | NaN => True | PInf | NInf => False end.

(** A number of [-1, 1], or NaN. *)
Definition signed_unit_or_nan (x : num) : Prop :=
  match x with Fin r => -1 <= r <= 1 | NaN => True | PInf | NInf => False end.

(** Both coordinates are finite and at most [m] in absolute value. *)
Definition pt_bounded (m : R) (p : point) : Prop :=
  match p with
  | (Fin a, Fin b) => (- m <= a <= m) /\ (- m <= b <= m)
  | _ => False
  end.

(** ** The entry computation on binary32 numbers *)

Section EntryArithmetic.

Context {T : Type} (add sub mul div max min : T -> T -> T) (zero one : T).

(** The computation of [distance_to_edge] for one point and one edge
    (lines 45 to 77 of the source), over any arithmetic. *)
Definition edge_distance_on (p s d : T * T) : T :=
  let dvx := sub (fst d) (fst s) in
  let dvy := sub (snd d) (snd s) in
  let edge_length := max (add (mul dvx dvx) (mul dvy dvy)) one in
  let rx := sub (fst p) (fst s) in
  let ry := sub (snd p) (snd s) in
  let line_projection := div (add (mul rx dvx) (mul ry dvy)) edge_length in
  let line_projection := max (min line_projection one) zero in
  let ex := sub (mul line_projection dvx) rx in
  let ey := sub (mul line_projection dvy) ry in
  add (mul ex ex) (mul ey ey).

End EntryArithmetic.








(** * Properties *)

(** ** Arithmetic of the number model *)

Lemma Rltb_true a b : a < b -> Rltb a b = true.
Proof. intros H. unfold Rltb. destruct (Rlt_dec a b); [reflexivity | contradiction]. Qed.

Lemma Rltb_false a b : b <= a -> Rltb a b = false.
Proof. intros H. unfold Rltb. destruct (Rlt_dec a b); [lra | reflexivity]. Qed.


Lemma Reqb_false a b : a <> b -> Reqb a b = false.
Proof. intros H. unfold Reqb. destruct (Req_dec_T a b); [contradiction | reflexivity]. Qed.

Lemma Rmax_one_nonzero a : Rmax a 1 <> 0.
Proof. pose proof (Rmax_r a 1). lra. Qed.

(** The distance of one finite point to one finite edge, as the tensor code
    computes it. *)
Lemma edge_distance_fin (p s d : rpoint) :
  let dv := pt_sub (fin_pt d) (fin_pt s) in
  let rel := pt_sub (fin_pt p) (fin_pt s) in
  reduce_sum
    (pt_square
       (pt_sub
          (pt_scale
             (clip_by_value
                (ndiv (reduce_sum (pt_mul rel dv))
                   (nmax (reduce_sum (pt_square dv)) (Fin 1)))
                (Fin 0) (Fin 1))
             dv)
          rel))
  = Fin (clamped_segment_distance p s d).
Proof.
  destruct p as [px py], s as [sx sy], d as [dx dy].
  cbn [fin_pt pt_sub pt_mul pt_square pt_scale reduce_sum fst snd nsub nneg nadd
         nmul nsquare nmax].
  cbn [ndiv]. rewrite Reqb_false by apply Rmax_one_nonzero.
  cbn [clip_by_value nmin nmax fin_pt pt_sub pt_mul pt_square pt_scale reduce_sum
         fst snd nsub nneg nadd nmul nsquare].
  unfold clamped_segment_distance, clipped_projection, sq_dist, along.
  cbn [fst snd].
  f_equal.
  replace ((dx + - sx) * (dx + - sx) + (dy + - sy) * (dy + - sy))
    with ((dx - sx) * (dx - sx) + (dy - sy) * (dy - sy)) by ring.
  replace ((px + - sx) * (dx + - sx) + (py + - sy) * (dy + - sy))
    with ((px - sx) * (dx - sx) + (py - sy) * (dy - sy)) by ring.
  ring.
Qed.

Lemma distance_to_edge_fin (grid : list (list rpoint))
    (edges : list (rpoint * rpoint)) :
  distance_to_edge (map (map fin_pt) grid)
    (map (fun e => fin_pt (fst e)) edges) (map (fun e => fin_pt (snd e)) edges)
  = map (map (fun p =>
                map (fun e => Fin (clamped_segment_distance p (fst e) (snd e))) edges))
      grid.
Proof.
  unfold distance_to_edge. rewrite map_map. apply map_ext. intros row.
  rewrite map_map. apply map_ext. intros p.
  induction edges as [|e edges IH]; [reflexivity|].
  cbn [map zip_with]. f_equal; [apply edge_distance_fin | exact IH].
Qed.

(** The generic entry computation, on the numbers of the model, is the entry
    of [distance_to_edge]. *)
Lemma edge_distance_on_num (p s d : point) :
  edge_distance_on nadd nsub nmul ndiv nmax nmin (Fin 0) (Fin 1) p s d
  = edge_distance p s d.
Proof. reflexivity. Qed.

(** The clipped parameter lies in [0, 1]. *)
Lemma clipped_projection_range p s d :
  0 <= clipped_projection p s d <= 1.
Proof.
  unfold clipped_projection. cbv zeta.
  set (q := _ / _). unfold Rmax, Rmin.
  repeat destruct (Rle_dec _ _); lra.
Qed.

(** For an edge of squared length at least 1 the clipped parameter is the
    parameter of the nearest point of the segment. *)
Lemma clamped_is_least p s d t :
  1 <= sq_dist d s -> 0 <= t <= 1 ->
  clamped_segment_distance p s d <= sq_dist p (along s d t).
Proof.
  intros Hlen Ht.
  unfold clamped_segment_distance, clipped_projection. cbv zeta.
  rewrite (Rmax_left (sq_dist d s) 1) by lra.
  destruct p as [px py], s as [sx sy], d as [dx dy].
  unfold sq_dist, along in *. cbn [fst snd] in *.
  set (ux := dx - sx) in *. set (uy := dy - sy) in *.
  set (rx := px - sx). set (ry := py - sy).
  set (L := ux * ux + uy * uy) in *.
  set (q := (rx * ux + ry * uy) / L).
  assert (Hq : rx * ux + ry * uy = q * L) by (unfold q; field; lra).
  set (c := Rmax (Rmin q 1) 0).
  assert (Hdiff : forall u,
    (px - (sx + u * ux)) * (px - (sx + u * ux))
    + (py - (sy + u * uy)) * (py - (sy + u * uy))
    = L * (u - q) * (u - q) + (rx * rx + ry * ry - L * q * q)).
  { intros u. unfold rx, ry.
    replace ((px - (sx + u * ux)) * (px - (sx + u * ux))
             + (py - (sy + u * uy)) * (py - (sy + u * uy)))
      with (u * u * (ux * ux + uy * uy)
            - 2 * u * ((px - sx) * ux + (py - sy) * uy)
            + ((px - sx) * (px - sx) + (py - sy) * (py - sy))) by ring.
    fold rx ry L. rewrite Hq. ring. }
  rewrite !Hdiff.
  assert (Hc : (c - q) * (c - q) <= (t - q) * (t - q)).
  { assert (Hcases : (q <= 0 /\ c = 0) \/ (1 <= q /\ c = 1) \/ c = q).
    { unfold c, Rmax, Rmin. repeat destruct (Rle_dec _ _); lra. }
    destruct Hcases as [[Hq0 ->]|[[Hq1 ->]| ->]].
    - replace ((t - q) * (t - q)) with ((0 - q) * (0 - q) + t * (t - 2 * q)) by ring.
      assert (0 <= t * (t - 2 * q)) by (apply Rmult_le_pos; lra). lra.
    - replace ((t - q) * (t - q))
        with ((1 - q) * (1 - q) + (1 - t) * (2 * q - 1 - t)) by ring.
      assert (0 <= (1 - t) * (2 * q - 1 - t)) by (apply Rmult_le_pos; lra). lra.
    - replace ((q - q) * (q - q)) with 0 by ring.
      pose proof (Rle_0_sqr (t - q)) as Hs. unfold Rsqr in Hs. lra. }
  assert (0 <= L * ((t - q) * (t - q) - (c - q) * (c - q)))
    by (apply Rmult_le_pos; lra).
  lra.
Qed.

(** ** C1 and C4 *)

Lemma sq_dist_nonneg p q : 0 <= sq_dist p q.
Proof.
  unfold sq_dist.
  pose proof (Rle_0_sqr (fst p - fst q)) as H1.
  pose proof (Rle_0_sqr (snd p - snd q)) as H2.
  unfold Rsqr in *. lra.
Qed.

Lemma sq_dist_zero_eq p q : sq_dist p q = 0 -> p = q.
Proof.
  destruct p as [a b], q as [c d]. unfold sq_dist. cbn [fst snd]. intros H.
  pose proof (Rle_0_sqr (a - c)) as H1. pose proof (Rle_0_sqr (b - d)) as H2.
  unfold Rsqr in *.
  assert (Ha : (a - c) * (a - c) = 0) by lra.
  assert (Hb : (b - d) * (b - d) = 0) by lra.
  apply Rmult_integral in Ha. apply Rmult_integral in Hb.
  f_equal; lra.
Qed.

(** A point of an edge whose squared length is 0 or at least 1 is at
    distance 0 from it. *)
Lemma clamped_on_segment p s d :
  on_segment p s d -> sq_dist d s = 0 \/ 1 <= sq_dist d s ->
  clamped_segment_distance p s d = 0.
Proof.
  intros [t [Ht ->]] [H0 | H1].
  - apply sq_dist_zero_eq in H0. subst d.
    unfold clamped_segment_distance, sq_dist, along. cbn [fst snd]. ring.
  - pose proof (clamped_is_least (along s d t) s d t H1 Ht) as Hle.
    pose proof (sq_dist_nonneg (along s d t)
                  (along s d (clipped_projection (along s d t) s d))) as Hge.
    fold (clamped_segment_distance (along s d t) s d) in Hge.
    assert (Hz : sq_dist (along s d t) (along s d t) = 0)
      by (unfold sq_dist; ring).
    lra.
Qed.










(** ** C6 *)

Lemma gaussian_pdf_fin (sigma x : R) :
  0 < sigma -> gaussian_pdf (Fin x) (Fin sigma) = Fin (confidence sigma x).
Proof.
  intros Hs. unfold gaussian_pdf.
  cbn [nsquare nmul nneg ndiv].
  assert (Hpos : 0 < sigma * sigma) by (apply Rmult_lt_0_compat; lra).
  rewrite Reqb_false by lra. reflexivity.
Qed.

Lemma make_edge_maps_fin (xs ys : list R) (edges : list (rpoint * rpoint))
    (sigma : num) :
  make_edge_maps (map Fin xs) (map Fin ys)
    (map (fun e => fin_pt (fst e)) edges) (map (fun e => fin_pt (snd e)) edges)
    sigma
  = map (fun y =>
           map (fun x =>
                  map (fun e =>
                         gaussian_pdf
                           (Fin (clamped_segment_distance (x, y) (fst e) (snd e)))
                           sigma)
                    edges)
             xs)
      ys.
Proof.
  unfold make_edge_maps, sampling_grid. cbv zeta.
  replace (map (fun y : num => map (fun x : num => (x, y)) (map Fin xs)) (map Fin ys))
    with (map (map fin_pt) (map (fun y : R => map (fun x : R => (x, y)) xs) ys))
    by (rewrite !map_map; apply map_ext; intros y; rewrite !map_map; reflexivity).
  rewrite distance_to_edge_fin, !map_map.
  apply map_ext. intros y. rewrite !map_map.
  apply map_ext. intros x. rewrite map_map. reflexivity.
Qed.

Lemma confidence_exponent_nonpos sigma x :
  0 < sigma -> - (x * x) / (2 * (sigma * sigma)) <= 0.
Proof.
  intros Hs.
  assert (Hpos : 0 < 2 * (sigma * sigma))
    by (assert (0 < sigma * sigma) by (apply Rmult_lt_0_compat; lra); lra).
  pose proof (Rinv_0_lt_compat _ Hpos) as Hinv.
  pose proof (Rle_0_sqr x) as Hx. unfold Rsqr in Hx.
  unfold Rdiv.
  assert (0 <= x * x * / (2 * (sigma * sigma)))
    by (apply Rmult_le_pos; lra).
  lra.
Qed.

Lemma confidence_range sigma x : 0 < sigma -> 0 < confidence sigma x <= 1.
Proof.
  intros Hs. unfold confidence. split; [apply exp_pos|].
  pose proof (confidence_exponent_nonpos sigma x Hs) as Hle.
  rewrite <- exp_0.
  destruct Hle as [Hlt | Heq].
  - left. now apply exp_increasing.
  - rewrite Heq. right. reflexivity.
Qed.

Lemma confidence_decreasing sigma x1 x2 :
  0 < sigma -> 0 <= x1 < x2 -> confidence sigma x2 < confidence sigma x1.
Proof.
  intros Hs [H1 H2]. unfold confidence. apply exp_increasing.
  assert (Hpos : 0 < 2 * (sigma * sigma))
    by (assert (0 < sigma * sigma) by (apply Rmult_lt_0_compat; lra); lra).
  pose proof (Rinv_0_lt_compat _ Hpos) as Hinv.
  unfold Rdiv.
  assert (Hsq : x1 * x1 < x2 * x2) by nra.
  assert (0 < (x2 * x2 - x1 * x1) * / (2 * (sigma * sigma)))
    by (apply Rmult_lt_0_compat; lra).
  lra.
Qed.

(** C6: for a finite grid, finite edges and a finite [sigma > 0], every entry
    of [make_edge_maps] is [exp(-x^2 / (2*sigma^2))] at the entry [x] of the
    distance field; this value is 1 where [x] is 0, lies in (0, 1], and
    strictly decreases as [x] (which is not negative) increases. *)
Theorem make_edge_maps_gaussian :
  forall (xs ys : list R) (edges : list (rpoint * rpoint)) (sigma : R),
    0 < sigma ->
    make_edge_maps (map Fin xs) (map Fin ys)
      (map (fun e => fin_pt (fst e)) edges) (map (fun e => fin_pt (snd e)) edges)
      (Fin sigma)
    = map (fun y =>
             map (fun x =>
                    map (fun e =>
                           Fin (confidence sigma
                                  (clamped_segment_distance (x, y) (fst e) (snd e))))
                      edges)
               xs)
        ys
    /\ confidence sigma 0 = 1
    /\ (forall x, 0 < confidence sigma x <= 1)
    /\ (forall x1 x2, 0 <= x1 < x2 -> confidence sigma x2 < confidence sigma x1)
    /\ (forall x1 x2, 0 <= x1 <= x2 -> confidence sigma x2 <= confidence sigma x1).
Proof.
  intros xs ys edges sigma Hs. split; [|split; [|split; [|split]]].
  - rewrite make_edge_maps_fin.
    apply map_ext; intros y. apply map_ext; intros x. apply map_ext; intros e.
    now apply gaussian_pdf_fin.
  - unfold confidence.
    replace (- (0 * 0) / (2 * (sigma * sigma))) with 0
      by (unfold Rdiv; ring).
    apply exp_0.
  - intros x. now apply confidence_range.
  - intros x1 x2 H. now apply confidence_decreasing.
  - intros x1 x2 [H1 [Hlt | Heq]].
    + left. apply confidence_decreasing; [assumption | lra].
    + subst x2. right. reflexivity.
Qed.

Lemma make_edge_maps_gaussian_witness :
  make_edge_maps (map Fin [0; 1]) (map Fin [0])
    (map (fun e => fin_pt (fst e)) [((0, 0), (3, 0))])
    (map (fun e => fin_pt (snd e)) [((0, 0), (3, 0))]) (Fin 1)
  = [[[Fin (confidence 1 (clamped_segment_distance (0, 0) (0, 0) (3, 0)))];
      [Fin (confidence 1 (clamped_segment_distance (1, 0) (0, 0) (3, 0)))]]]
  /\ confidence 1 0 = 1.
Proof.
  pose proof (make_edge_maps_gaussian [0; 1] [0] [((0, 0), (3, 0))] 1 Rlt_0_1)
    as [H1 [H2 _]].
  split; [exact H1 | exact H2].
Defined.

(** ** C7 *)

Lemma unit_vectors_directions (edges : list (point * point)) :
  unit_vectors (map fst edges) (map snd edges)
  = map (fun e => edge_direction (fst e) (snd e)) edges.
Proof.
  unfold unit_vectors.
  induction edges as [|e edges IH]; [reflexivity|].
  cbn [map zip_with]. f_equal. exact IH.
Qed.

Lemma norm_fin (a b : R) : norm (Fin a, Fin b) = Fin (sqrt (a * a + b * b)).
Proof.
  unfold norm. cbn [pt_square reduce_sum fst snd nsquare nmul nadd nsqrt].
  rewrite Rltb_false; [reflexivity|].
  pose proof (Rle_0_sqr a) as Ha. pose proof (Rle_0_sqr b) as Hb.
  unfold Rsqr in *. lra.
Qed.

(** The direction of an edge with distinct finite endpoints: the difference
    of the endpoints divided by its length. *)
Lemma edge_direction_fin (s d : rpoint) :
  s <> d ->
  edge_direction (fin_pt s) (fin_pt d)
  = (Fin ((fst d - fst s) / sqrt (sq_dist d s)),
     Fin ((snd d - snd s) / sqrt (sq_dist d s))).
Proof.
  intros Hne. destruct s as [sx sy], d as [dx dy].
  unfold edge_direction.
  unfold pt_sub, fin_pt. cbn [fst snd nsub nneg nadd]. rewrite norm_fin.
  unfold sq_dist, pt_div. cbn [fst snd ndiv].
  replace ((dx + - sx) * (dx + - sx) + (dy + - sy) * (dy + - sy))
    with ((dx - sx) * (dx - sx) + (dy - sy) * (dy - sy)) by ring.
  assert (Hpos : 0 < (dx - sx) * (dx - sx) + (dy - sy) * (dy - sy)).
  { pose proof (sq_dist_nonneg (dx, dy) (sx, sy)) as Hge.
    unfold sq_dist in Hge. cbn [fst snd] in Hge.
    destruct Hge as [Hlt | Heq]; [exact Hlt|].
    exfalso. apply Hne. symmetry.
    apply sq_dist_zero_eq. unfold sq_dist. cbn [fst snd]. lra. }
  pose proof (sqrt_lt_R0 _ Hpos) as Hsqrt.
  rewrite Reqb_false by lra.
  replace (dx + - sx) with (dx - sx) by ring.
  replace (dy + - sy) with (dy - sy) by ring.
  reflexivity.
Qed.

Lemma edge_direction_unit (s d : rpoint) :
  s <> d ->
  let ux := (fst d - fst s) / sqrt (sq_dist d s) in
  let uy := (snd d - snd s) / sqrt (sq_dist d s) in
  ux * ux + uy * uy = 1.
Proof.
  intros Hne ux uy.
  assert (Hpos : 0 < sq_dist d s).
  { destruct (sq_dist_nonneg d s) as [Hlt | Heq]; [exact Hlt|].
    exfalso. apply Hne. symmetry. now apply sq_dist_zero_eq. }
  pose proof (sqrt_lt_R0 _ Hpos) as Hsqrt.
  pose proof (sqrt_sqrt (sq_dist d s) (Rlt_le _ _ Hpos)) as Hsq.
  unfold ux, uy. clear ux uy.
  set (n := sqrt (sq_dist d s)) in *.
  set (a := fst d - fst s). set (b := snd d - snd s).
  assert (Hab : a * a + b * b = n * n) by (rewrite Hsq; reflexivity).
  replace (a / n * (a / n) + b / n * (b / n)) with ((a * a + b * b) / (n * n))
    by (field; lra).
  rewrite Hab. field. lra.
Qed.


Lemma make_pafs_fin (xs ys : list R) (edges : list (rpoint * rpoint))
    (sigma : num) :
  make_pafs (map Fin xs) (map Fin ys)
    (map (fun e => fin_pt (fst e)) edges) (map (fun e => fin_pt (snd e)) edges)
    sigma
  = map (fun y =>
           map (fun x =>
                  map (fun e =>
                         pt_scale
                           (gaussian_pdf
                              (Fin (clamped_segment_distance (x, y) (fst e) (snd e)))
                              sigma)
                           (edge_direction (fin_pt (fst e)) (fin_pt (snd e))))
                    edges)
             xs)
      ys.
Proof.
  unfold make_pafs. rewrite make_edge_maps_fin.
  pose proof (unit_vectors_directions
                (map (fun e : rpoint * rpoint => (fin_pt (fst e), fin_pt (snd e))) edges))
    as Hu.
  rewrite !map_map in Hu. cbn [fst snd] in Hu. rewrite Hu. clear Hu.
  rewrite !map_map. apply map_ext; intros y.
  rewrite !map_map. apply map_ext; intros x.
  induction edges as [|e edges IH]; [reflexivity|].
  cbn [map zip_with]. f_equal. exact IH.
Qed.

(** ** Addition of numbers and of fields *)

Lemma nadd_comm (x y : num) : nadd x y = nadd y x.
Proof. destruct x, y; cbn [nadd]; try reflexivity. f_equal. ring. Qed.

Lemma nadd_assoc (x y z : num) : nadd (nadd x y) z = nadd x (nadd y z).
Proof. destruct x, y, z; cbn [nadd]; try reflexivity. f_equal. ring. Qed.

Lemma pt_add_comm (p q : point) : pt_add p q = pt_add q p.
Proof. unfold pt_add. now rewrite (nadd_comm (fst p)), (nadd_comm (snd p)). Qed.

Lemma pt_add_assoc (p q r : point) : pt_add (pt_add p q) r = pt_add p (pt_add q r).
Proof. unfold pt_add. cbn [fst snd]. now rewrite !nadd_assoc. Qed.

Lemma pt_add_swap (a p q : point) :
  pt_add (pt_add a p) q = pt_add (pt_add a q) p.
Proof. now rewrite !pt_add_assoc, (pt_add_comm p q). Qed.

Section ZipWith.

Context {A : Type} (f : A -> A -> A).

(** An update that can be applied in either order stays so when it is
    lifted to lists, entry by entry. *)
Lemma zip_with_swap :
  (forall a x y, f (f a x) y = f (f a y) x) ->
  forall a x y : list A,
    zip_with f (zip_with f a x) y = zip_with f (zip_with f a y) x.
Proof.
  intros Hf a. induction a as [|a0 a IH]; intros [|x0 x] [|y0 y];
    cbn [zip_with]; try reflexivity.
  now rewrite Hf, IH.
Qed.

Lemma nth_error_zip_with (l k : list A) (i : nat) :
  nth_error (zip_with f l k) i
  = match nth_error l i, nth_error k i with
    | Some x, Some y => Some (f x y)
    | _, _ => None
    end.
Proof.
  revert k i. induction l as [|x l IH]; intros [|y k] [|i];
    cbn [zip_with nth_error]; try reflexivity.
  - now destruct (nth_error l i).
  - apply IH.
Qed.

End ZipWith.

Lemma field_add_swap (a f g : field) :
  field_add (field_add a f) g = field_add (field_add a g) f.
Proof.
  unfold field_add.
  apply zip_with_swap. apply zip_with_swap. apply zip_with_swap.
  apply pt_add_swap.
Qed.

(** ** The loop of make_multi_pafs *)

Lemma fold_seq_pairs {B : Type} (g : B -> list point -> list point -> B)
    (l : list (list point * list point)) :
  forall (pre : list (list point * list point)) (acc : B),
    fold_left
      (fun a i => g a (nth i (map fst (pre ++ l)) []) (nth i (map snd (pre ++ l)) []))
      (seq (length pre) (length l)) acc
    = fold_left (fun a sd => g a (fst sd) (snd sd)) l acc.
Proof.
  induction l as [|sd l IH]; intros pre acc; [reflexivity|].
  cbn [length seq fold_left].
  assert (Hfst : nth (length pre) (map fst (pre ++ sd :: l)) [] = fst sd).
  { rewrite map_app. cbn [map].
    rewrite <- (length_map fst pre). apply nth_middle. }
  assert (Hsnd : nth (length pre) (map snd (pre ++ sd :: l)) [] = snd sd).
  { rewrite map_app. cbn [map].
    rewrite <- (length_map snd pre). apply nth_middle. }
  rewrite Hfst, Hsnd.
  replace (pre ++ sd :: l) with ((pre ++ [sd]) ++ l)
    by (rewrite <- app_assoc; reflexivity).
  replace (S (length pre)) with (length (pre ++ [sd]))
    by (rewrite length_app; cbn [length]; lia).
  apply IH.
Qed.

(** The loop over the instance axis is a left fold over the instances, given
    as pairs of the source points and the destination points of their
    edges. *)
Lemma make_multi_pafs_fold (xv yv : list num) (n_edges : nat)
    (insts : list (list point * list point)) (sigma : num) :
  make_multi_pafs xv yv
    (Tensor3 n_edges (map fst insts)) (Tensor3 n_edges (map snd insts)) sigma
  = fold_left (fun pafs sd => field_add pafs (instance_paf xv yv sigma sd)) insts
      (zeros (length yv) (length xv) n_edges).
Proof.
  unfold make_multi_pafs, gather0, instance_paf. cbn [dim1 items].
  rewrite length_map.
  exact (fold_seq_pairs
           (fun a s d =>
              field_add a (map (map (map pt_nan_to_zero)) (make_pafs xv yv s d sigma)))
           insts [] _).
Qed.

Lemma fold_field_add_perm (l l' : list field) :
  Permutation l l' ->
  forall acc, fold_left field_add l acc = fold_left field_add l' acc.
Proof.
  induction 1 as [|x l l' _ IH|x y l|l l' l'' _ IH1 _ IH2]; intros acc;
    cbn [fold_left].
  - reflexivity.
  - apply IH.
  - now rewrite field_add_swap.
  - now rewrite IH1.
Qed.

Lemma fold_left_map {A B C : Type} (f : C -> B -> C) (g : A -> B) (l : list A) :
  forall acc, fold_left (fun a x => f a (g x)) l acc = fold_left f (map g l) acc.
Proof. induction l as [|x l IH]; intros acc; [reflexivity | apply IH]. Qed.

(** ** C8 *)

(** C8: permuting the instances (the rows of [edge_sources] and of
    [edge_destinations], together) leaves the result of [make_multi_pafs]
    unchanged, addition of the model being exact. *)
Theorem make_multi_pafs_permutation :
  forall (xv yv : list num) (n_edges : nat) (sigma : num)
         (insts insts' : list (list point * list point)),
    Permutation insts insts' ->
    make_multi_pafs xv yv
      (Tensor3 n_edges (map fst insts)) (Tensor3 n_edges (map snd insts)) sigma
    = make_multi_pafs xv yv
        (Tensor3 n_edges (map fst insts')) (Tensor3 n_edges (map snd insts')) sigma.
Proof.
  intros xv yv n_edges sigma insts insts' Hperm.
  rewrite !make_multi_pafs_fold.
  rewrite !(fold_left_map field_add (instance_paf xv yv sigma)).
  apply fold_field_add_perm. now apply Permutation_map.
Qed.

Lemma make_multi_pafs_permutation_witness :
  make_multi_pafs [Fin 0; Fin 1] [Fin 0]
    (Tensor3 1 (map fst [([fin_pt (0, 0)], [fin_pt (3, 0)]);
                         ([fin_pt (1, 1)], [fin_pt (1, 1)])]))
    (Tensor3 1 (map snd [([fin_pt (0, 0)], [fin_pt (3, 0)]);
                         ([fin_pt (1, 1)], [fin_pt (1, 1)])])) (Fin 1)
  = make_multi_pafs [Fin 0; Fin 1] [Fin 0]
      (Tensor3 1 (map fst [([fin_pt (1, 1)], [fin_pt (1, 1)]);
                           ([fin_pt (0, 0)], [fin_pt (3, 0)])]))
      (Tensor3 1 (map snd [([fin_pt (1, 1)], [fin_pt (1, 1)]);
                           ([fin_pt (0, 0)], [fin_pt (3, 0)])])) (Fin 1).
Proof.
  apply make_multi_pafs_permutation. apply perm_swap.
Defined.

(** ** Values that are finite or NaN *)

Lemma square_nonneg (a : R) : 0 <= a * a.
Proof. pose proof (Rle_0_sqr a) as H. unfold Rsqr in H. exact H. Qed.


(** The norm is a number that is not negative, +infinity or NaN. *)
Lemma norm_cases (v : point) :
  match norm v with
  | Fin n => 0 <= n /\ exists a b, v = (Fin a, Fin b) /\ n = sqrt (a * a + b * b)
  | PInf | NaN => True
  | NInf => False
  end.
Proof.
  destruct v as [[a| | |] [b| | |]]; unfold norm;
    cbn [pt_square reduce_sum fst snd nsquare nmul nadd nsqrt]; try exact I.
  rewrite Rltb_false
    by (pose proof (square_nonneg a); pose proof (square_nonneg b); lra).
  split; [apply sqrt_pos|]. exists a, b. split; reflexivity.
Qed.

(** A direction is never infinite: a zero norm comes with zero coordinates
    and gives NaN. *)
Lemma direction_fin_or_nan (v : point) : pt_fin_or_nan (pt_div v (norm v)).
Proof.
  pose proof (norm_cases v) as Hn.
  destruct (norm v) as [n| | |] eqn:En; try contradiction.
  - destruct Hn as [Hpos [a [b [-> Hn]]]].
    unfold pt_div, pt_fin_or_nan. cbn [fst snd ndiv].
    destruct (Reqb n 0) eqn:E0; [|split; exact I].
    assert (Hz : n = 0).
    { unfold Reqb in E0. destruct (Req_dec_T n 0); [assumption | discriminate]. }
    rewrite Hz in Hn. symmetry in Hn.
    pose proof (square_nonneg a) as Ha. pose proof (square_nonneg b) as Hb.
    apply sqrt_eq_0 in Hn; [|lra].
    assert (Ha0 : a * a = 0) by lra. assert (Hb0 : b * b = 0) by lra.
    apply Rmult_integral in Ha0. apply Rmult_integral in Hb0.
    assert (a = 0) by lra. assert (b = 0) by lra. subst a b.
    unfold inf_of_sign. rewrite Rltb_false by lra. split; exact I.
  - destruct v as [[a| | |] [b| | |]]; unfold pt_div, pt_fin_or_nan;
      cbn [fst snd ndiv fin_or_nan]; split; exact I.
  - destruct v as [[a| | |] [b| | |]]; unfold pt_div, pt_fin_or_nan;
      cbn [fst snd ndiv fin_or_nan]; split; exact I.
Qed.





(** ** The entries of the fields *)

Lemma make_pafs_entries (xv yv : list num) (es ed : list point) (sigma : num) :
  make_pafs xv yv es ed sigma
  = map (fun y => map (fun x => paf_entries (x, y) es ed sigma) xv) yv.
Proof.
  unfold make_pafs, make_edge_maps, sampling_grid, distance_to_edge. cbv zeta.
  rewrite !map_map. apply map_ext. intros y.
  rewrite !map_map. reflexivity.
Qed.

Lemma length_paf_entries (p : point) (es ed : list point) (sigma : num) (n : nat) :
  length es = n -> length ed = n -> length (paf_entries p es ed sigma) = n.
Proof.
  intros Hs Hd. unfold paf_entries, point_distances, unit_vectors.
  repeat (rewrite ?length_zip_with, ?length_map). lia.
Qed.


Lemma cell_make_pafs (xv yv : list num) (es ed : list point) (sigma : num)
    (i j e : nat) (x y : num) :
  nth_error yv i = Some y -> nth_error xv j = Some x ->
  cell (make_pafs xv yv es ed sigma) i j e
  = nth_error (paf_entries (x, y) es ed sigma) e.
Proof.
  intros Hy Hx. rewrite make_pafs_entries. unfold cell.
  rewrite nth_error_map, Hy. cbn [option_map].
  rewrite nth_error_map, Hx. reflexivity.
Qed.

Lemma cell_field_add (f g : field) (i j e : nat) :
  cell (field_add f g) i j e
  = match cell f i j e, cell g i j e with
    | Some p, Some q => Some (pt_add p q)
    | _, _ => None
    end.
Proof.
  unfold cell, field_add. rewrite nth_error_zip_with.
  destruct (nth_error f i) as [r|], (nth_error g i) as [r'|]; try reflexivity.
  - rewrite nth_error_zip_with.
    destruct (nth_error r j) as [c|], (nth_error r' j) as [c'|]; try reflexivity.
    + apply nth_error_zip_with.
    + now destruct (nth_error c e).
  - destruct (nth_error r j) as [c|]; [|reflexivity]. now destruct (nth_error c e).
Qed.

Lemma cell_map (h : point -> point) (f : field) (i j e : nat) :
  cell (map (map (map h)) f) i j e = option_map h (cell f i j e).
Proof.
  unfold cell. rewrite nth_error_map.
  destruct (nth_error f i) as [r|]; [|reflexivity]. cbn [option_map].
  rewrite nth_error_map.
  destruct (nth_error r j) as [c|]; [|reflexivity]. cbn [option_map].
  apply nth_error_map.
Qed.

Lemma cell_zeros (grid_height grid_width n_edges i j e : nat) :
  (i < grid_height)%nat -> (j < grid_width)%nat -> (e < n_edges)%nat ->
  cell (zeros grid_height grid_width n_edges) i j e = Some (Fin 0, Fin 0).
Proof.
  intros Hi Hj He. unfold cell, zeros.
  rewrite nth_error_repeat by assumption.
  rewrite nth_error_repeat by assumption.
  now apply nth_error_repeat.
Qed.

Lemma Forall_zip_with_both {A B C : Type} (P : A -> Prop) (Q : B -> Prop)
    (S : C -> Prop) (f : A -> B -> C) :
  (forall x y, P x -> Q y -> S (f x y)) ->
  forall l k, Forall P l -> Forall Q k -> Forall S (zip_with f l k).
Proof.
  intros Hf l k Hl. revert k.
  induction Hl as [|x l Hx _ IH]; intros k Hk; [constructor|].
  destruct Hk as [|y k Hy Hk]; cbn [zip_with]; constructor; auto.
Qed.

Lemma Forall_map_each {A B : Type} (P : A -> Prop) (Q : B -> Prop) (f : A -> B)
    (l : list A) :
  (forall x, P x -> Q (f x)) -> Forall P l -> Forall Q (map f l).
Proof. intros Hf Hl. induction Hl; cbn [map]; constructor; auto. Qed.

Lemma Forall_map_all {A B : Type} (Q : B -> Prop) (f : A -> B) (l : list A) :
  (forall x, Q (f x)) -> Forall Q (map f l).
Proof. intros Hf. induction l; cbn [map]; constructor; auto. Qed.

Lemma Forall_repeat_all {A : Type} (P : A -> Prop) (x : A) (n : nat) :
  P x -> Forall P (repeat x n).
Proof. intros Hx. induction n; cbn [repeat]; constructor; auto. Qed.

Lemma all_cells_zeros (P : point -> Prop) (h w n : nat) :
  P (Fin 0, Fin 0) -> all_cells P (zeros h w n).
Proof.
  intros H0. unfold all_cells, zeros.
  now repeat apply Forall_repeat_all.
Qed.






(** ** The entry of a field for one grid point and one edge *)

Lemma nth_error_zip_with_gen {A B C : Type} (f : A -> B -> C)
    (l : list A) (k : list B) (i : nat) :
  nth_error (zip_with f l k) i
  = match nth_error l i, nth_error k i with
    | Some x, Some y => Some (f x y)
    | _, _ => None
    end.
Proof.
  revert k i. induction l as [|x l IH]; intros [|y k] [|i];
    cbn [zip_with nth_error]; try reflexivity.
  - now destruct (nth_error l i).
  - apply IH.
Qed.

Lemma point_distances_zip (p : point) (es ed : list point) :
  point_distances p es ed = zip_with (edge_distance p) es ed.
Proof.
  unfold point_distances. revert ed.
  induction es as [|s es IH]; intros [|d ed]; cbn [map zip_with]; try reflexivity.
  f_equal. apply IH.
Qed.

Lemma unit_vectors_zip (es ed : list point) :
  unit_vectors es ed = zip_with edge_direction es ed.
Proof.
  unfold unit_vectors. revert ed.
  induction es as [|s es IH]; intros [|d ed]; cbn [map zip_with]; try reflexivity.
  f_equal. apply IH.
Qed.

Lemma paf_entries_zip (p : point) (es ed : list point) (sigma : num) :
  paf_entries p es ed sigma = zip_with (paf_entry p sigma) es ed.
Proof.
  unfold paf_entries. rewrite point_distances_zip, unit_vectors_zip.
  revert ed.
  induction es as [|s es IH]; intros [|d ed]; cbn [map zip_with]; try reflexivity.
  f_equal. apply IH.
Qed.

(** The entry of [make_pafs] at grid cell (i, j) for edge e. *)
Lemma cell_make_pafs_entry (xv yv : list num) (es ed : list point) (sigma : num)
    (i j e : nat) (x y : num) (s d : point) :
  nth_error yv i = Some y -> nth_error xv j = Some x ->
  nth_error es e = Some s -> nth_error ed e = Some d ->
  cell (make_pafs xv yv es ed sigma) i j e = Some (paf_entry (x, y) sigma s d).
Proof.
  intros Hy Hx Hs Hd.
  rewrite (cell_make_pafs xv yv es ed sigma i j e x y Hy Hx).
  now rewrite paf_entries_zip, nth_error_zip_with_gen, Hs, Hd.
Qed.

(** The entry of [make_edge_maps] at grid cell (i, j) for edge e. *)
Lemma entry_make_edge_maps (xv yv : list num) (es ed : list point) (sigma : num)
    (i j e : nat) (x y : num) (s d : point) :
  nth_error yv i = Some y -> nth_error xv j = Some x ->
  nth_error es e = Some s -> nth_error ed e = Some d ->
  entry3 (make_edge_maps xv yv es ed sigma) i j e
  = Some (gaussian_pdf (edge_distance (x, y) s d) sigma).
Proof.
  intros Hy Hx Hs Hd. unfold make_edge_maps, sampling_grid, distance_to_edge, entry3.
  rewrite !map_map, nth_error_map, Hy. cbn [option_map].
  rewrite !map_map, nth_error_map, Hx. cbn [option_map].
  fold (point_distances (x, y) es ed).
  rewrite point_distances_zip, nth_error_map, nth_error_zip_with_gen, Hs, Hd.
  reflexivity.
Qed.

Lemma nmul_nan_r (x : num) : nmul x NaN = NaN.
Proof. now destruct x. Qed.

Lemma confidence_at_zero (sigma : R) : confidence sigma 0 = 1.
Proof.
  unfold confidence.
  replace (- (0 * 0) / (2 * (sigma * sigma))) with 0 by (unfold Rdiv; ring).
  apply exp_0.
Qed.

(** The entries at a grid point and an edge, all finite. *)
Lemma entries_fin (xs ys : list R) (edges : list (rpoint * rpoint)) (sigma : num)
    (i j e : nat) (x y : R) (s d : rpoint) :
  nth_error ys i = Some y -> nth_error xs j = Some x ->
  nth_error edges e = Some (s, d) ->
  entry3 (make_edge_maps (map Fin xs) (map Fin ys)
            (map (fun e => fin_pt (fst e)) edges)
            (map (fun e => fin_pt (snd e)) edges) sigma) i j e
  = Some (gaussian_pdf (Fin (clamped_segment_distance (x, y) s d)) sigma)
  /\ cell (make_pafs (map Fin xs) (map Fin ys)
             (map (fun e => fin_pt (fst e)) edges)
             (map (fun e => fin_pt (snd e)) edges) sigma) i j e
     = Some (pt_scale (gaussian_pdf (Fin (clamped_segment_distance (x, y) s d)) sigma)
               (edge_direction (fin_pt s) (fin_pt d)))
  /\ nth_error (unit_vectors (map (fun e => fin_pt (fst e)) edges)
                  (map (fun e => fin_pt (snd e)) edges)) e
     = Some (edge_direction (fin_pt s) (fin_pt d)).
Proof.
  intros Hy Hx He.
  assert (Hys : nth_error (map Fin ys) i = Some (Fin y))
    by (rewrite nth_error_map, Hy; reflexivity).
  assert (Hxs : nth_error (map Fin xs) j = Some (Fin x))
    by (rewrite nth_error_map, Hx; reflexivity).
  assert (Hes : nth_error (map (fun e => fin_pt (fst e)) edges) e = Some (fin_pt s))
    by (rewrite nth_error_map, He; reflexivity).
  assert (Hed : nth_error (map (fun e => fin_pt (snd e)) edges) e = Some (fin_pt d))
    by (rewrite nth_error_map, He; reflexivity).
  assert (Hdist : edge_distance (Fin x, Fin y) (fin_pt s) (fin_pt d)
                  = Fin (clamped_segment_distance (x, y) s d))
    by apply (edge_distance_fin (x, y) s d).
  split; [|split].
  - rewrite (entry_make_edge_maps _ _ _ _ _ i j e _ _ _ _ Hys Hxs Hes Hed).
    now rewrite Hdist.
  - rewrite (cell_make_pafs_entry _ _ _ _ _ i j e _ _ _ _ Hys Hxs Hes Hed).
    unfold paf_entry. now rewrite Hdist.
  - now rewrite unit_vectors_zip, nth_error_zip_with_gen, Hes, Hed.
Qed.

(** ** C7 *)



(** ** C2 *)







(** ** Shapes *)

Lemma has_shape_shaped (h w n : nat) (f : field) :
  shaped h w n f -> has_shape h w n f = true.
Proof.
  intros [Hlen Hrows]. unfold has_shape.
  rewrite Hlen, Nat.eqb_refl. cbn [andb]. clear Hlen.
  induction Hrows as [|row f [Hw Hcells] _ IH]; [reflexivity|].
  cbn [forallb]. rewrite Hw, Nat.eqb_refl, IH. cbn [andb].
  rewrite andb_true_r.
  clear -Hcells. induction Hcells as [|c row Hc _ IH]; [reflexivity|].
  cbn [forallb]. now rewrite Hc, Nat.eqb_refl, IH.
Qed.

Lemma shaped_zeros (h w n : nat) : shaped h w n (zeros h w n).
Proof.
  unfold shaped, zeros. split; [apply repeat_length|].
  apply Forall_repeat_all. split; [apply repeat_length|].
  apply Forall_repeat_all. apply repeat_length.
Qed.

Lemma shaped_field_add (h w n : nat) (f g : field) :
  shaped h w n f -> shaped h w n g -> shaped h w n (field_add f g).
Proof.
  intros [Hf Hrf] [Hg Hrg]. unfold shaped, field_add. split.
  - rewrite length_zip_with. lia.
  - revert Hrf Hrg. apply Forall_zip_with_both.
    intros r r' [Hr Hcr] [Hr' Hcr']. split.
    + rewrite length_zip_with. lia.
    + revert Hcr Hcr'. apply Forall_zip_with_both.
      intros c c' Hc Hc'. rewrite length_zip_with. lia.
Qed.

Lemma shaped_instance_paf (xv yv : list num) (sigma : num) (n : nat)
    (sd : list point * list point) :
  length (fst sd) = n -> length (snd sd) = n ->
  shaped (length yv) (length xv) n (instance_paf xv yv sigma sd).
Proof.
  intros Hs Hd. unfold shaped, instance_paf.
  rewrite make_pafs_entries, !map_map. split; [apply length_map|].
  apply Forall_map_all. intros y. rewrite map_map.
  split; [apply length_map|].
  apply Forall_map_all. intros x. rewrite length_map.
  now apply length_paf_entries.
Qed.

Lemma shaped_make_multi_pafs (xv yv : list num) (n : nat) (sigma : num)
    (insts : list (list point * list point)) :
  Forall (fun sd => length (fst sd) = n /\ length (snd sd) = n) insts ->
  shaped (length yv) (length xv) n
    (make_multi_pafs xv yv (Tensor3 n (map fst insts)) (Tensor3 n (map snd insts))
       sigma).
Proof.
  intros Hshape. rewrite make_multi_pafs_fold.
  generalize (shaped_zeros (length yv) (length xv) n).
  generalize (zeros (length yv) (length xv) n) as acc.
  induction Hshape as [|sd insts [Hs Hd] _ IH]; intros acc Hacc; [exact Hacc|].
  cbn [fold_left]. apply IH.
  apply shaped_field_add; [exact Hacc | now apply shaped_instance_paf].
Qed.

(** Without instances the loop does not run: the result is the zero field. *)
Lemma make_multi_pafs_no_instances (xv yv : list num) (n : nat)
    (edge_destinations : tensor3) (sigma : num) :
  make_multi_pafs xv yv (Tensor3 n []) edge_destinations sigma
  = zeros (length yv) (length xv) n.
Proof. reflexivity. Qed.

(** ** The per-record transform *)

(** [generate_pafs] reads the key "instances" of the record, and nothing
    else, and sets the key "part_affinity_fields". *)
Lemma generate_pafs_unfold (self : PartAffinityFieldsGenerator) (xv yv : list num)
    (edge_inds : list (nat * nat)) (ex : example) :
  generate_pafs self xv yv edge_inds ex
  = (t ← (ex !! "instances"%string) ≫= as_instances;
     v ← paf_tensor self xv yv edge_inds t;
     Some (<["part_affinity_fields"%string := v]> ex)).
Proof.
  unfold generate_pafs, paf_tensor.
  destruct ((ex !! "instances"%string) ≫= as_instances) as [t|]; [|reflexivity].
  cbn [mbind option_bind].
  destruct (last xv) as [xmax|]; [|reflexivity]. cbn [mbind option_bind].
  destruct (last yv) as [ymax|]; [|reflexivity]. cbn [mbind option_bind].
  destruct (get_edge_points_cast _ _) as [[es ed]|]; [|reflexivity].
  cbn [mbind option_bind].
  destruct (ensure_dim1 _ es) as [es'|]; [|reflexivity]. cbn [mbind option_bind].
  destruct (ensure_dim1 _ ed) as [ed'|]; [|reflexivity]. cbn [mbind option_bind].
  destruct (ensure_shape _ _ _ _) as [pafs|]; reflexivity.
Qed.

Lemma boolean_mask_filter (xmax ymax : num) (t : tensor3) :
  items (boolean_mask t (in_img xmax ymax t))
  = List.filter (existsb (point_in_img xmax ymax)) (items t).
Proof.
  unfold boolean_mask, in_img. cbn [items].
  induction (items t) as [|inst l IH]; [reflexivity|].
  cbn [map zip zip_with List.filter snd].
  destruct (existsb (point_in_img xmax ymax) inst); cbn [map fst]; now rewrite IH.
Qed.

Lemma gather1_Some (t t' : tensor3) (inds : list nat) :
  gather1 t inds = Some t' ->
  dim1 t' = length inds
  /\ Forall2 (fun row r => length r = length inds) (items t) (items t').
Proof.
  unfold gather1.
  destruct (mapM _ (items t)) as [rows|] eqn:E; [|discriminate].
  cbn [mbind option_bind]. intros [= <-]. cbn [dim1 items]. split; [reflexivity|].
  apply mapM_Some in E.
  induction E as [|row r l k Hr _ IH]; constructor; [|exact IH].
  apply length_mapM in Hr. now symmetry.
Qed.

Lemma Forall2_pairs {A B : Type} (P Q : A -> B -> Prop) (l : list A) (a b : list B) :
  Forall2 P l a -> Forall2 Q l b ->
  exists ab : list (B * B),
    a = map fst ab /\ b = map snd ab
    /\ Forall (fun p => exists x, P x (fst p) /\ Q x (snd p)) ab.
Proof.
  intros Ha. revert b.
  induction Ha as [|x y l a Hxy _ IH]; intros b Hb.
  - inversion Hb; subst. exists []. repeat split; constructor.
  - inversion Hb as [|x' z l' b' Hxz Hb']; subst.
    destruct (IH _ Hb') as [ab [-> [-> Hab]]].
    exists ((y, z) :: ab). repeat split. constructor; [|exact Hab].
    exists x. split; assumption.
Qed.

(** The two tensors of [get_edge_points] have the shape
    (n_instances, n_edges, 2). *)
Lemma get_edge_points_pairs (t es ed : tensor3) (edge_inds : list (nat * nat)) :
  get_edge_points t edge_inds = Some (es, ed) ->
  exists insts : list (list point * list point),
    es = Tensor3 (length edge_inds) (map fst insts)
    /\ ed = Tensor3 (length edge_inds) (map snd insts)
    /\ Forall (fun sd => length (fst sd) = length edge_inds
                         /\ length (snd sd) = length edge_inds) insts.
Proof.
  unfold get_edge_points.
  destruct (gather1 t (map fst edge_inds)) as [es'|] eqn:Es; [|discriminate].
  cbn [mbind option_bind].
  destruct (gather1 t (map snd edge_inds)) as [ed'|] eqn:Ed; [|discriminate].
  cbn [mbind option_bind]. intros [= <- <-].
  apply gather1_Some in Es. apply gather1_Some in Ed.
  destruct Es as [Hds Hs], Ed as [Hdd Hd].
  rewrite length_map in Hds, Hdd.
  destruct (Forall2_pairs _ _ _ _ _ Hs Hd) as [insts [Hes [Hed Hall]]].
  exists insts. destruct es' as [n1 i1], ed' as [n2 i2]. cbn [dim1 items] in *.
  subst. repeat split.
  eapply Forall_impl; [exact Hall|]. intros sd [_ [H1 H2]].
  rewrite length_map in H1, H2. split; assumption.
Qed.

Lemma gather1_is_Some (t : tensor3) (inds : list nat) :
  rect3 t -> Forall (fun i => (i < dim1 t)%nat) inds -> is_Some (gather1 t inds).
Proof.
  intros Hrect Hin. unfold gather1.
  assert (Hrows : is_Some (mapM (fun row : list point =>
                                   mapM (fun i => row !! i) inds) (items t))).
  { apply mapM_is_Some. eapply Forall_impl; [exact Hrect|].
    intros row Hrow. cbn. apply mapM_is_Some.
    eapply Forall_impl; [exact Hin|]. intros i Hi. cbn.
    apply lookup_lt_is_Some. cbv beta in *. lia. }
  destruct Hrows as [rows ->]. cbn [mbind option_bind]. eexists. reflexivity.
Qed.

Lemma get_edge_points_is_Some (t : tensor3) (edge_inds : list (nat * nat)) :
  rect3 t -> edges_in_range edge_inds (dim1 t) ->
  is_Some (get_edge_points t edge_inds).
Proof.
  intros Hrect Hin. unfold get_edge_points.
  destruct (gather1_is_Some t (map fst edge_inds) Hrect) as [es ->].
  { apply Forall_map_each with (P := fun e => (fst e < dim1 t)%nat /\ (snd e < dim1 t)%nat);
      [tauto | exact Hin]. }
  cbn [mbind option_bind].
  destruct (gather1_is_Some t (map snd edge_inds) Hrect) as [ed ->].
  { apply Forall_map_each with (P := fun e => (fst e < dim1 t)%nat /\ (snd e < dim1 t)%nat);
      [tauto | exact Hin]. }
  cbn [mbind option_bind]. eexists. reflexivity.
Qed.

Lemma rect3_boolean_mask (xmax ymax : num) (t : tensor3) :
  rect3 t -> rect3 (boolean_mask t (in_img xmax ymax t)).
Proof.
  unfold rect3. rewrite boolean_mask_filter. cbn [boolean_mask dim1].
  induction 1 as [|row l Hrow _ IH]; cbn [List.filter]; [constructor|].
  destruct (existsb _ row); [constructor; assumption | assumption].
Qed.

(** The gather of [generate_pafs] is that of [get_edge_points], for a
    skeleton with an edge at least. *)
Lemma get_edge_points_cast_Some (t : tensor3) (edge_inds : list (nat * nat))
    (r : tensor3 * tensor3) :
  get_edge_points_cast t edge_inds = Some r ->
  edge_inds <> [] /\ get_edge_points t edge_inds = Some r.
Proof.
  destruct edge_inds as [|e l]; [discriminate|]. cbn [get_edge_points_cast].
  intros H. split; [discriminate | exact H].
Qed.

Lemma get_edge_points_cast_nonempty (t : tensor3) (edge_inds : list (nat * nat)) :
  edge_inds <> [] ->
  get_edge_points_cast t edge_inds = get_edge_points t edge_inds.
Proof. destruct edge_inds; [contradiction | reflexivity]. Qed.

(** Once the edge points are gathered, the shape checks pass. *)
Lemma paf_tensor_of_edge_points (self : PartAffinityFieldsGenerator)
    (xv yv : list num) (edge_inds : list (nat * nat)) (t es ed : tensor3)
    (xmax ymax : num) :
  last xv = Some xmax -> last yv = Some ymax ->
  get_edge_points_cast (boolean_mask t (in_img xmax ymax t)) edge_inds
  = Some (es, ed) ->
  paf_tensor self xv yv edge_inds t
  = Some (wrap_pafs self (make_multi_pafs xv yv es ed (sigma self)))
  /\ shaped (length yv) (length xv) (length edge_inds)
       (make_multi_pafs xv yv es ed (sigma self)).
Proof.
  intros Hx Hy Hg. unfold paf_tensor. rewrite Hx, Hy. cbn [mbind option_bind].
  rewrite Hg. cbn [mbind option_bind].
  apply get_edge_points_cast_Some in Hg. destruct Hg as [_ Hg].
  destruct (get_edge_points_pairs _ _ _ _ Hg) as [insts [-> [-> Hshape]]].
  pose proof (shaped_make_multi_pafs xv yv (length edge_inds) (sigma self) insts
                Hshape) as Hs.
  unfold ensure_dim1. cbn [dim1]. rewrite Nat.eqb_refl. cbn [mbind option_bind].
  unfold ensure_shape. rewrite (has_shape_shaped _ _ _ _ Hs).
  cbn [mbind option_bind]. split; [reflexivity | exact Hs].
Qed.

Lemma boolean_mask_eq (xmax ymax : num) (t : tensor3) :
  boolean_mask t (in_img xmax ymax t)
  = Tensor3 (dim1 t) (List.filter (existsb (point_in_img xmax ymax)) (items t)).
Proof.
  rewrite <- boolean_mask_filter. reflexivity.
Qed.

(** A record none of whose instances passes the filter gets the zero
    field. *)
Lemma generate_pafs_empty_mask (self : PartAffinityFieldsGenerator)
    (xv yv : list num) (edge_inds : list (nat * nat)) (ex : example)
    (t : tensor3) (xmax ymax : num) :
  edge_inds <> [] ->
  ex !! "instances"%string = Some (VInstances t) ->
  last xv = Some xmax -> last yv = Some ymax ->
  items (boolean_mask t (in_img xmax ymax t)) = [] ->
  generate_pafs self xv yv edge_inds ex
  = Some (<["part_affinity_fields"%string :=
              wrap_pafs self (zeros (length yv) (length xv) (length edge_inds))]> ex).
Proof.
  intros Hedges Hinst Hx Hy Hempty.
  rewrite generate_pafs_unfold, Hinst. cbn [mbind option_bind as_instances].
  assert (Hg : get_edge_points_cast (boolean_mask t (in_img xmax ymax t)) edge_inds
               = Some (Tensor3 (length edge_inds) [], Tensor3 (length edge_inds) [])).
  { rewrite (get_edge_points_cast_nonempty _ _ Hedges).
    rewrite boolean_mask_eq. rewrite boolean_mask_filter in Hempty. rewrite Hempty.
    unfold get_edge_points, gather1. cbn [items mapM mbind option_bind mret option_ret].
    now rewrite !length_map. }
  destruct (paf_tensor_of_edge_points self xv yv edge_inds t _ _ xmax ymax Hx Hy Hg)
    as [-> _].
  cbn [mbind option_bind]. reflexivity.
Qed.

(** ** C9 *)

(** C9: for a skeleton with an edge at least and a record none of whose
    instances remains after the in-frame filter, [generate_pafs] raises no
    error and stores under "part_affinity_fields" the zero tensor of shape
    (grid_height, grid_width, n_edges, 2), reshaped to
    (grid_height, grid_width, n_edges * 2) when [flatten_channels] is set;
    [make_multi_pafs] itself returns that zero tensor when there is no
    instance. *)
Theorem generate_pafs_no_instances :
  forall (self : PartAffinityFieldsGenerator) (xv yv : list num)
         (edge_inds : list (nat * nat)) (ex : example) (t : tensor3)
         (xmax ymax : num),
    edge_inds <> [] ->
    ex !! "instances"%string = Some (VInstances t) ->
    last xv = Some xmax -> last yv = Some ymax ->
    items (boolean_mask t (in_img xmax ymax t)) = [] ->
    let pafs := zeros (length yv) (length xv) (length edge_inds) in
    generate_pafs self xv yv edge_inds ex
    = Some (<["part_affinity_fields"%string :=
                if flatten_channels self then VFlat (flatten pafs) else VField pafs]>
              ex)
    /\ (forall ed, make_multi_pafs xv yv (Tensor3 (length edge_inds) []) ed
                     (sigma self) = pafs)
    /\ shaped (length yv) (length xv) (length edge_inds) pafs
    /\ all_cells (fun p => p = (Fin 0, Fin 0)) pafs.
Proof.
  intros self xv yv edge_inds ex t xmax ymax Hedges Hinst Hx Hy Hempty pafs.
  split; [|split; [|split]].
  - now apply (generate_pafs_empty_mask self xv yv edge_inds ex t xmax ymax).
  - intros ed. apply make_multi_pafs_no_instances.
  - apply shaped_zeros.
  - now apply all_cells_zeros.
Qed.

Lemma generate_pafs_no_instances_witness :
  generate_pafs
    {| sigma := Fin 1; output_stride := 1;
       skeletons := Some [ {| edge_inds := [(0, 1)%nat] |} ];
       flatten_channels := false |}
    [Fin 1; Fin 3] [Fin 1; Fin 3] [(0, 1)%nat]
    {[ "instances"%string := VInstances (Tensor3 2 []) ]}
  = Some (<["part_affinity_fields"%string := VField (zeros 2 2 1)]>
            {[ "instances"%string := VInstances (Tensor3 2 []) ]}).
Proof.
  refine (proj1 (generate_pafs_no_instances _ [Fin 1; Fin 3] [Fin 1; Fin 3]
                   [(0, 1)%nat] _ (Tensor3 2 []) (Fin 3) (Fin 3) _ _ _ _ _)).
  - discriminate.
  - apply lookup_singleton_eq.
  - reflexivity.
  - reflexivity.
  - reflexivity.
Defined.

(** ** C3 *)

Lemma nlt_fin (a b : R) : nlt (Fin a) (Fin b) = true <-> a < b.
Proof.
  cbn [nlt]. unfold Rltb. destruct (Rlt_dec a b); split; intros H;
    try assumption; try reflexivity; try discriminate; contradiction.
Qed.

(** On finite numbers the test of a keypoint is 0 < x < xmax and
    0 < y < ymax, all four strict. *)
Lemma point_in_img_fin (x y xm ym : R) :
  point_in_img (Fin xm) (Fin ym) (fin_pt (x, y)) = true
  <-> 0 < x < xm /\ 0 < y < ym.
Proof.
  unfold point_in_img, ngt, fin_pt. cbn [fst snd].
  rewrite !andb_true_iff, !nlt_fin. tauto.
Qed.

(** A keypoint with a NaN coordinate is not in the image. *)
Lemma point_in_img_nan (xmax ymax c : num) :
  point_in_img xmax ymax (NaN, c) = false /\ point_in_img xmax ymax (c, NaN) = false.
Proof.
  unfold point_in_img, ngt. cbn [fst snd nlt].
  split; [reflexivity|]. rewrite andb_false_r. destruct (nlt (Fin 0) c && nlt c xmax);
    reflexivity.
Qed.

(** The field of one instance with the edge from (0, 1) to (0, 2), at the
    grid point (0, 1) on that edge. *)
Lemma make_multi_pafs_left_border :
  cell (make_multi_pafs [Fin 0; Fin 1; Fin 2; Fin 3] [Fin 0; Fin 1; Fin 2; Fin 3]
          (Tensor3 1 [[fin_pt (0, 1)]]) (Tensor3 1 [[fin_pt (0, 2)]]) (Fin 1))
    1 0 0
  = Some (Fin 0, Fin 1).
Proof.
  pose proof (make_multi_pafs_fold [Fin 0; Fin 1; Fin 2; Fin 3]
                [Fin 0; Fin 1; Fin 2; Fin 3] 1
                [([fin_pt (0, 1)], [fin_pt (0, 2)])] (Fin 1)) as Hfold.
  cbn [map fst snd fold_left] in Hfold. rewrite Hfold.
  rewrite cell_field_add. unfold instance_paf. rewrite cell_map. cbn [fst snd].
  rewrite cell_zeros by (cbn [length]; lia).
  destruct (entries_fin [0; 1; 2; 3] [0; 1; 2; 3] [((0, 1), (0, 2))] (Fin 1)
              1 0 0 0 1 (0, 1) (0, 2) eq_refl eq_refl eq_refl) as [_ [Hcell _]].
  cbn [map fst snd] in Hcell. rewrite Hcell. cbn [option_map].
  rewrite clamped_on_segment.
  - rewrite gaussian_pdf_fin by lra. rewrite confidence_at_zero.
    rewrite edge_direction_fin by (intros H; injection H; lra).
    unfold sq_dist. cbn [fst snd].
    replace ((0 - 0) * (0 - 0) + (2 - 1) * (2 - 1)) with 1 by ring.
    rewrite sqrt_1.
    unfold pt_scale, pt_nan_to_zero, nan_to_zero, pt_add.
    cbn [fst snd nmul is_nan nadd].
    f_equal. f_equal; f_equal; lra.
  - exists 0. split; [lra|]. unfold along. cbn [fst snd]. f_equal; lra.
  - right. unfold sq_dist. cbn [fst snd]. lra.
Qed.

(** C3, as stated, fails at a keypoint with a coordinate equal to 0: with
    the last grid coordinates 3 and 3, the instance with the keypoints (0, 1)
    and (0, 2) has a keypoint with 0 <= x < 3 and 0 <= y < 3, and it is
    dropped: its record gets the zero field, while its own field is (0, 1)
    at the grid point (0, 1). *)
Lemma in_img_zero_coordinate_counterexample :
  let t := Tensor3 2 [[fin_pt (0, 1); fin_pt (0, 2)]] in
  let grid := [Fin 0; Fin 1; Fin 2; Fin 3] in
  (0 <= 0 < 3 /\ 0 <= 1 < 3)
  /\ last grid = Some (Fin 3)
  /\ in_img (Fin 3) (Fin 3) t = [false]
  /\ generate_pafs
       {| sigma := Fin 1; output_stride := 1;
          skeletons := Some [ {| edge_inds := [(0, 1)%nat] |} ];
          flatten_channels := false |}
       grid grid [(0, 1)%nat] {[ "instances"%string := VInstances t ]}
     = Some (<["part_affinity_fields"%string := VField (zeros 4 4 1)]>
               {[ "instances"%string := VInstances t ]})
  /\ cell (zeros 4 4 1) 1 0 0 = Some (Fin 0, Fin 0)
  /\ get_edge_points_cast t [(0, 1)%nat]
     = Some (Tensor3 1 [[fin_pt (0, 1)]], Tensor3 1 [[fin_pt (0, 2)]])
  /\ cell (make_multi_pafs grid grid
             (Tensor3 1 [[fin_pt (0, 1)]]) (Tensor3 1 [[fin_pt (0, 2)]]) (Fin 1))
       1 0 0
     = Some (Fin 0, Fin 1).
Proof.
  intros t grid.
  assert (Hmask : in_img (Fin 3) (Fin 3) t = [false]).
  { unfold in_img, t. cbn [items map existsb].
    assert (H1 : point_in_img (Fin 3) (Fin 3) (fin_pt (0, 1)) = false).
    { apply not_true_is_false. rewrite point_in_img_fin. lra. }
    assert (H2 : point_in_img (Fin 3) (Fin 3) (fin_pt (0, 2)) = false).
    { apply not_true_is_false. rewrite point_in_img_fin. lra. }
    rewrite H1, H2. reflexivity. }
  assert (Hitems : items (boolean_mask t (in_img (Fin 3) (Fin 3) t)) = []).
  { rewrite Hmask. reflexivity. }
  split; [lra|]. split; [reflexivity|]. split; [exact Hmask|].
  split; [|split; [reflexivity|split; [reflexivity|]]].
  - exact (generate_pafs_empty_mask
             {| sigma := Fin 1; output_stride := 1;
                skeletons := Some [ {| edge_inds := [(0, 1)%nat] |} ];
                flatten_channels := false |}
             grid grid [(0, 1)%nat]
             {[ "instances"%string := VInstances t ]}
             t (Fin 3) (Fin 3) ltac:(discriminate)
             (lookup_singleton_eq _ _) eq_refl eq_refl Hitems).
  - exact make_multi_pafs_left_border.
Qed.

Lemma existsb_point_in_img (xmax ymax : num) (inst : list point) :
  existsb (point_in_img xmax ymax) inst = true
  <-> exists p, In p inst
        /\ (ngt (fst p) (Fin 0) = true /\ nlt (fst p) xmax = true)
        /\ (ngt (snd p) (Fin 0) = true /\ nlt (snd p) ymax = true).
Proof.
  rewrite existsb_exists. unfold point_in_img.
  split; intros [p [Hin Hp]]; exists p; (split; [exact Hin|]).
  - rewrite !andb_true_iff in Hp. exact Hp.
  - rewrite !andb_true_iff. exact Hp.
Qed.

(** An instance that fails the test does not change the stored field. *)
Lemma generate_pafs_dropped_instance (self : PartAffinityFieldsGenerator)
    (xv yv : list num) (edge_inds : list (nat * nat)) (ex : example)
    (n_nodes : nat) (l1 l2 : list (list point)) (inst : list point) :
  (forall xmax ymax, last xv = Some xmax -> last yv = Some ymax ->
     existsb (point_in_img xmax ymax) inst = false) ->
  generate_pafs self xv yv edge_inds
    (<["instances"%string := VInstances (Tensor3 n_nodes (l1 ++ inst :: l2))]> ex)
    ≫= (fun out => out !! "part_affinity_fields"%string)
  = generate_pafs self xv yv edge_inds
      (<["instances"%string := VInstances (Tensor3 n_nodes (l1 ++ l2))]> ex)
      ≫= (fun out => out !! "part_affinity_fields"%string).
Proof.
  intros Hout. rewrite !generate_pafs_unfold, !lookup_insert_eq.
  cbn [mbind option_bind as_instances].
  assert (Heq : paf_tensor self xv yv edge_inds (Tensor3 n_nodes (l1 ++ inst :: l2))
                = paf_tensor self xv yv edge_inds (Tensor3 n_nodes (l1 ++ l2))).
  { unfold paf_tensor.
    destruct (last xv) as [xmax|]; [|reflexivity].
    destruct (last yv) as [ymax|]; [|reflexivity].
    cbn [mbind option_bind]. rewrite !boolean_mask_eq. cbn [dim1 items].
    rewrite !List.filter_app. cbn [List.filter].
    rewrite (Hout xmax ymax eq_refl eq_refl). reflexivity. }
  rewrite Heq.
  destruct (paf_tensor self xv yv edge_inds (Tensor3 n_nodes (l1 ++ l2))) as [v|];
    [|reflexivity].
  cbn [mbind option_bind]. now rewrite !lookup_insert_eq.
Qed.

(** The field stored for a record is that of the instances that pass the
    test. *)
Lemma generate_pafs_of_filtered (self : PartAffinityFieldsGenerator)
    (xv yv : list num) (edge_inds : list (nat * nat)) (xmax ymax : num)
    (ex : example) (t es ed : tensor3) :
  last xv = Some xmax -> last yv = Some ymax ->
  ex !! "instances"%string = Some (VInstances t) ->
  get_edge_points_cast
    (Tensor3 (dim1 t) (List.filter (existsb (point_in_img xmax ymax)) (items t)))
    edge_inds = Some (es, ed) ->
  generate_pafs self xv yv edge_inds ex
  = Some (<["part_affinity_fields"%string :=
              wrap_pafs self (make_multi_pafs xv yv es ed (sigma self))]> ex).
Proof.
  intros Hx Hy Hinst Hg. rewrite <- boolean_mask_eq in Hg.
  rewrite generate_pafs_unfold, Hinst. cbn [mbind option_bind as_instances].
  destruct (paf_tensor_of_edge_points self xv yv edge_inds t es ed xmax ymax
              Hx Hy Hg) as [-> _].
  reflexivity.
Qed.

(** C3 (amended): [generate_pafs] computes the field of a record from the
    instances that have at least one keypoint (x, y) such that 0 < x < xmax
    and 0 < y < ymax, in their order, where xmax and ymax are the last
    coordinates of the grid vectors: the field stored is [make_multi_pafs]
    of the edge points gathered from these instances alone.  The test of a
    keypoint is the conjunction over x and y (all comparisons strict, false
    on NaN), the test of an instance the disjunction over its keypoints.  An
    instance without such a keypoint is dropped, and the field stored for
    the record is the same with and without it. *)
Theorem generate_pafs_in_frame_filter :
  forall (self : PartAffinityFieldsGenerator) (xv yv : list num)
         (edge_inds : list (nat * nat)) (xmax ymax : num),
    last xv = Some xmax -> last yv = Some ymax ->
    (forall (ex : example) (t es ed : tensor3),
        ex !! "instances"%string = Some (VInstances t) ->
        get_edge_points_cast
          (Tensor3 (dim1 t)
             (List.filter (existsb (point_in_img xmax ymax)) (items t)))
          edge_inds = Some (es, ed) ->
        let pafs := make_multi_pafs xv yv es ed (sigma self) in
        generate_pafs self xv yv edge_inds ex
        = Some (<["part_affinity_fields"%string :=
                    if flatten_channels self then VFlat (flatten pafs)
                    else VField pafs]> ex))
    /\ (forall t : tensor3,
        items (boolean_mask t (in_img xmax ymax t))
        = List.filter (existsb (point_in_img xmax ymax)) (items t))
    /\ (forall inst : list point,
          existsb (point_in_img xmax ymax) inst = true
          <-> exists p, In p inst
                /\ (ngt (fst p) (Fin 0) = true /\ nlt (fst p) xmax = true)
                /\ (ngt (snd p) (Fin 0) = true /\ nlt (snd p) ymax = true))
    /\ (forall x y xm ym : R,
          xmax = Fin xm -> ymax = Fin ym ->
          (point_in_img xmax ymax (fin_pt (x, y)) = true
           <-> 0 < x < xm /\ 0 < y < ym))
    /\ (forall c : num,
          point_in_img xmax ymax (NaN, c) = false
          /\ point_in_img xmax ymax (c, NaN) = false)
    /\ (forall (ex : example) (n_nodes : nat) (l1 l2 : list (list point))
               (inst : list point),
          existsb (point_in_img xmax ymax) inst = false ->
          items (boolean_mask (Tensor3 n_nodes (l1 ++ inst :: l2))
                   (in_img xmax ymax (Tensor3 n_nodes (l1 ++ inst :: l2))))
          = items (boolean_mask (Tensor3 n_nodes (l1 ++ l2))
                     (in_img xmax ymax (Tensor3 n_nodes (l1 ++ l2))))
          /\ generate_pafs self xv yv edge_inds
               (<["instances"%string :=
                    VInstances (Tensor3 n_nodes (l1 ++ inst :: l2))]> ex)
               ≫= (fun out => out !! "part_affinity_fields"%string)
             = generate_pafs self xv yv edge_inds
                 (<["instances"%string := VInstances (Tensor3 n_nodes (l1 ++ l2))]> ex)
                 ≫= (fun out => out !! "part_affinity_fields"%string)).
Proof.
  intros self xv yv edge_inds xmax ymax Hx Hy.
  split; [|split; [|split; [|split; [|split]]]].
  - intros ex t es ed Hinst Hg pafs.
    exact (generate_pafs_of_filtered self xv yv edge_inds xmax ymax ex t es ed
             Hx Hy Hinst Hg).
  - intros t. apply boolean_mask_filter.
  - intros inst. apply existsb_point_in_img.
  - intros x y xm ym -> ->. apply point_in_img_fin.
  - intros c. apply point_in_img_nan.
  - intros ex n_nodes l1 l2 inst Hout. split.
    + rewrite !boolean_mask_filter. cbn [items].
      rewrite !List.filter_app. cbn [List.filter]. now rewrite Hout.
    + apply generate_pafs_dropped_instance.
      intros xmax' ymax' Hx' Hy'.
      rewrite Hx in Hx'. rewrite Hy in Hy'.
      injection Hx' as <-. injection Hy' as <-. exact Hout.
Qed.

(** A record with two instances, of which the first, with the keypoints
    (1, 1) and (1, 2), passes the test and the second, with the keypoints
    (0, 1) and (3, 2), does not: the field is that of the first alone. *)
Lemma generate_pafs_in_frame_filter_witness :
  let t := Tensor3 2 [[fin_pt (1, 1); fin_pt (1, 2)];
                      [fin_pt (0, 1); fin_pt (3, 2)]] in
  let grid := [Fin 0; Fin 1; Fin 2; Fin 3] in
  generate_pafs
    {| sigma := Fin 1; output_stride := 1;
       skeletons := Some [ {| edge_inds := [(0, 1)%nat] |} ];
       flatten_channels := false |}
    grid grid [(0, 1)%nat] {[ "instances"%string := VInstances t ]}
  = Some (<["part_affinity_fields"%string :=
              VField (make_multi_pafs grid grid
                        (Tensor3 1 [[fin_pt (1, 1)]]) (Tensor3 1 [[fin_pt (1, 2)]])
                        (Fin 1))]>
            {[ "instances"%string := VInstances t ]}).
Proof.
  intros t grid.
  refine (proj1 (generate_pafs_in_frame_filter
                   {| sigma := Fin 1; output_stride := 1;
                      skeletons := Some [ {| edge_inds := [(0, 1)%nat] |} ];
                      flatten_channels := false |}
                   grid grid [(0, 1)%nat] (Fin 3) (Fin 3) eq_refl eq_refl)
            {[ "instances"%string := VInstances t ]} t
            (Tensor3 1 [[fin_pt (1, 1)]]) (Tensor3 1 [[fin_pt (1, 2)]]) _ _).
  - apply lookup_singleton_eq.
  - unfold t. cbn [dim1 items List.filter existsb].
    rewrite (proj2 (point_in_img_fin 1 1 3 3)) by lra.
    cbn [orb].
    replace (point_in_img (Fin 3) (Fin 3) (fin_pt (0, 1))) with false
      by (symmetry; apply not_true_is_false; rewrite point_in_img_fin; lra).
    replace (point_in_img (Fin 3) (Fin 3) (fin_pt (3, 2))) with false
      by (symmetry; apply not_true_is_false; rewrite point_in_img_fin; lra).
    reflexivity.
Defined.

(** ** The mapped dataset *)

Lemma shaped3_flatten (h w n : nat) (f : field) :
  shaped h w n f -> shaped3 h w (n * 2) (flatten f).
Proof.
  intros [Hlen Hrows]. unfold shaped3, flatten. split; [now rewrite length_map|].
  eapply Forall_map_each; [|exact Hrows].
  intros row [Hw Hcells]. split; [now rewrite length_map|].
  eapply Forall_map_each; [|exact Hcells].
  intros c <-. clear. induction c as [|p c IH]; [reflexivity|].
  cbn [flat_map length app]. rewrite IH. lia.
Qed.

(** The set-up of [transform_dataset], once its parts are known. *)
Lemma transform_dataset_setup
    (make_grid_vectors : nat -> nat -> Z -> option (list num * list num))
    (self : PartAffinityFieldsGenerator) (ds : list example) (first : example)
    (h w : nat) (rest : list nat) (data xv yv : list num)
    (sk : Skeleton) (more : list Skeleton) :
  head ds = Some first ->
  first !! "image"%string = Some (VTensor (h :: w :: rest) data) ->
  make_grid_vectors h w (output_stride self) = Some (xv, yv) ->
  skeletons self = Some (sk :: more) ->
  transform_dataset make_grid_vectors self ds
  = mapM (generate_pafs self xv yv (edge_inds sk)) ds.
Proof.
  intros Hhead Himg Hgrid Hsk. unfold transform_dataset.
  rewrite Hhead. cbn [mbind option_bind]. rewrite Himg.
  cbn [mbind option_bind tensor_shape lookup list_lookup].
  rewrite Hgrid. cbn [mbind option_bind]. rewrite Hsk.
  cbn [mbind option_bind head]. reflexivity.
Qed.

(** A record that can be processed is returned with the key
    "part_affinity_fields" set to a field of the shape of the grid. *)
Lemma generate_pafs_augments (self : PartAffinityFieldsGenerator)
    (xv yv : list num) (edge_inds : list (nat * nat)) (ex : example) :
  xv <> [] -> yv <> [] -> edge_inds <> [] -> record_ok edge_inds ex ->
  exists pafs : field,
    generate_pafs self xv yv edge_inds ex
    = Some (<["part_affinity_fields"%string := wrap_pafs self pafs]> ex)
    /\ shaped (length yv) (length xv) (length edge_inds) pafs.
Proof.
  intros Hxv Hyv Hedges [t [Hinst [Hrect Hrange]]].
  destruct (last xv) as [xmax|] eqn:Hx; [|apply last_None in Hx; contradiction].
  destruct (last yv) as [ymax|] eqn:Hy; [|apply last_None in Hy; contradiction].
  destruct (get_edge_points_is_Some (boolean_mask t (in_img xmax ymax t)) edge_inds)
    as [[es ed] Hg].
  { now apply rect3_boolean_mask. }
  { exact Hrange. }
  rewrite <- (get_edge_points_cast_nonempty _ _ Hedges) in Hg.
  destruct (paf_tensor_of_edge_points self xv yv edge_inds t es ed xmax ymax Hx Hy Hg)
    as [Hpaf Hshape].
  exists (make_multi_pafs xv yv es ed (sigma self)). split; [|exact Hshape].
  rewrite generate_pafs_unfold, Hinst. cbn [mbind option_bind as_instances].
  rewrite Hpaf. reflexivity.
Qed.

Lemma mapM_augments (self : PartAffinityFieldsGenerator)
    (xv yv : list num) (edge_inds : list (nat * nat)) (ds : list example) :
  xv <> [] -> yv <> [] -> edge_inds <> [] -> Forall (record_ok edge_inds) ds ->
  exists out : list example,
    mapM (generate_pafs self xv yv edge_inds) ds = Some out
    /\ Forall2
         (fun ex ex' =>
            exists pafs : field,
              ex' = <["part_affinity_fields"%string := wrap_pafs self pafs]> ex
              /\ shaped (length yv) (length xv) (length edge_inds) pafs)
         ds out.
Proof.
  intros Hxv Hyv Hedges Hok.
  induction Hok as [|ex ds Hex _ [out [Hout Hall]]].
  - exists []. split; [reflexivity | constructor].
  - destruct (generate_pafs_augments self xv yv edge_inds ex Hxv Hyv Hedges Hex)
      as [pafs [Hgen Hshape]].
    exists (<["part_affinity_fields"%string := wrap_pafs self pafs]> ex :: out).
    split.
    + apply mapM_Some. constructor; [exact Hgen | now apply mapM_Some].
    + constructor; [|exact Hall]. exists pafs. split; [reflexivity | exact Hshape].
Qed.

(** ** C5 *)

(** C5: when the set-up succeeds (the first record has an image of rank at
    least 2, the grid vectors exist and are not empty, there is a first
    skeleton, with an edge at least) and every record can be processed,
    [transform_dataset] returns as many records as it got, in the same
    order, the first record included; each output record is the input record
    with the key "part_affinity_fields" set: the input keys "image",
    "instances" and "skeleton_inds", and every other key but
    "part_affinity_fields", keep their values, the keys are those of the
    input and "part_affinity_fields" (one key more when the input record does
    not hold it), and the value stored has shape
    (grid_height, grid_width, n_edges, 2), or
    (grid_height, grid_width, n_edges * 2) when [flatten_channels] is set. *)
Theorem transform_dataset_augments :
  forall (make_grid_vectors : nat -> nat -> Z -> option (list num * list num))
         (self : PartAffinityFieldsGenerator) (ds : list example)
         (first : example) (h w : nat) (rest : list nat) (data xv yv : list num)
         (sk : Skeleton) (more : list Skeleton),
    head ds = Some first ->
    first !! "image"%string = Some (VTensor (h :: w :: rest) data) ->
    make_grid_vectors h w (output_stride self) = Some (xv, yv) ->
    xv <> [] -> yv <> [] ->
    skeletons self = Some (sk :: more) ->
    edge_inds sk <> [] ->
    Forall (record_ok (edge_inds sk)) ds ->
    exists out : list example,
      transform_dataset make_grid_vectors self ds = Some out
      /\ length out = length ds
      /\ (forall (k : nat) (ex : example),
            ds !! k = Some ex ->
            exists (ex' : example) (pafs : field),
              out !! k = Some ex'
              /\ (forall key : string, In key input_keys -> ex' !! key = ex !! key)
              /\ (forall key : string,
                    key <> "part_affinity_fields"%string -> ex' !! key = ex !! key)
              /\ dom ex' = {[ "part_affinity_fields"%string ]} ∪ dom ex
              /\ (ex !! "part_affinity_fields"%string = None ->
                  size (dom ex') = S (size (dom ex)))
              /\ shaped (length yv) (length xv) (length (edge_inds sk)) pafs
              /\ (flatten_channels self = false ->
                  ex' !! "part_affinity_fields"%string = Some (VField pafs))
              /\ (flatten_channels self = true ->
                  ex' !! "part_affinity_fields"%string = Some (VFlat (flatten pafs))
                  /\ shaped3 (length yv) (length xv) (length (edge_inds sk) * 2)
                       (flatten pafs)))
      /\ (exists first' : example,
            head out = Some first'
            /\ forall key : string,
                 key <> "part_affinity_fields"%string -> first' !! key = first !! key).
Proof.
  intros mgv self ds first h w rest data xv yv sk more
         Hhead Himg Hgrid Hxv Hyv Hsk Hedges Hok.
  rewrite (transform_dataset_setup mgv self ds first h w rest data xv yv sk more
             Hhead Himg Hgrid Hsk).
  destruct (mapM_augments self xv yv (edge_inds sk) ds Hxv Hyv Hedges Hok)
    as [out [Hout Hall]].
  exists out. split; [exact Hout|]. split; [symmetry; eapply Forall2_length; exact Hall|].
  split.
  - intros k ex Hk.
    destruct (Forall2_lookup_l _ _ _ _ _ Hall Hk) as [ex' [Hk' [pafs [-> Hshape]]]].
    exists (<["part_affinity_fields"%string := wrap_pafs self pafs]> ex), pafs.
    split; [exact Hk'|]. split; [|split; [|split; [|split; [|split; [|split]]]]].
    + intros key Hkey. apply lookup_insert_ne.
      unfold input_keys in Hkey. cbn [In] in Hkey.
      destruct Hkey as [<-|[<-|[<-|[]]]]; discriminate.
    + intros key Hkey. now apply lookup_insert_ne.
    + apply dom_insert_L.
    + intros Hnew. rewrite dom_insert_L, size_union, size_singleton; [reflexivity|].
      apply not_elem_of_dom in Hnew. set_solver.
    + exact Hshape.
    + intros Hflat. rewrite lookup_insert_eq. unfold wrap_pafs. now rewrite Hflat.
    + intros Hflat. rewrite lookup_insert_eq. unfold wrap_pafs. rewrite Hflat.
      split; [reflexivity | now apply shaped3_flatten].
  - destruct ds as [|ex ds]; [discriminate|]. injection Hhead as ->.
    inversion Hall as [|? ex' ? out' [pafs [-> _]] _]; subst.
    eexists. split; [reflexivity|].
    intros key Hkey. now apply lookup_insert_ne.
Qed.

Lemma grid_vector_nonempty : grid_vector 2 1 <> [].
Proof.
  intros H. apply (f_equal (@length num)) in H.
  unfold grid_vector in H. rewrite length_map, length_seq in H. discriminate.
Qed.

Lemma transform_dataset_augments_witness :
  exists out : list example,
    transform_dataset make_grid_vectors_spec one_edge_generator [record_plain]
    = Some out
    /\ length out = length [record_plain].
Proof.
  destruct (transform_dataset_augments make_grid_vectors_spec one_edge_generator
              [record_plain] record_plain 2 2 [1%nat] [Fin 0; Fin 0; Fin 0; Fin 0]
              (grid_vector 2 1) (grid_vector 2 1) {| edge_inds := [(0, 1)%nat] |} []
              eq_refl eq_refl eq_refl grid_vector_nonempty grid_vector_nonempty
              eq_refl)
    as [out [Hout [Hlen _]]].
  - discriminate.
  - constructor; [|constructor].
    exists (Tensor3 2 []). split; [reflexivity|]. split; [constructor|].
    constructor; [|constructor]. cbn. lia.
  - exists out. split; assumption.
Defined.

(** ** C10 *)

Lemma generate_pafs_same_pafs (self : PartAffinityFieldsGenerator)
    (xv yv : list num) (edge_inds : list (nat * nat)) (r1 r2 : example) :
  same_but_skeleton_inds r1 r2 ->
  match generate_pafs self xv yv edge_inds r1,
        generate_pafs self xv yv edge_inds r2 with
  | Some o1, Some o2 =>
      o1 !! "part_affinity_fields"%string = o2 !! "part_affinity_fields"%string
  | None, None => True
  | _, _ => False
  end.
Proof.
  intros Hsame. rewrite !generate_pafs_unfold.
  rewrite <- (Hsame "instances"%string) by discriminate.
  destruct ((r1 !! "instances"%string) ≫= as_instances) as [t|]; [|exact I].
  cbn [mbind option_bind].
  destruct (paf_tensor self xv yv edge_inds t) as [v|]; [|exact I].
  cbn [mbind option_bind]. now rewrite !lookup_insert_eq.
Qed.

Lemma mapM_same_pafs (self : PartAffinityFieldsGenerator)
    (xv yv : list num) (edge_inds : list (nat * nat)) (ds1 ds2 : list example) :
  Forall2 same_but_skeleton_inds ds1 ds2 ->
  output_pafs (mapM (generate_pafs self xv yv edge_inds) ds1)
  = output_pafs (mapM (generate_pafs self xv yv edge_inds) ds2).
Proof.
  induction 1 as [|r1 r2 ds1 ds2 Hr _ IH]; [reflexivity|].
  change (mapM (generate_pafs self xv yv edge_inds) (r1 :: ds1))
    with (y ← generate_pafs self xv yv edge_inds r1;
          k ← mapM (generate_pafs self xv yv edge_inds) ds1; mret (y :: k)).
  change (mapM (generate_pafs self xv yv edge_inds) (r2 :: ds2))
    with (y ← generate_pafs self xv yv edge_inds r2;
          k ← mapM (generate_pafs self xv yv edge_inds) ds2; mret (y :: k)).
  pose proof (generate_pafs_same_pafs self xv yv edge_inds r1 r2 Hr) as Hhd.
  destruct (generate_pafs self xv yv edge_inds r1) as [o1|],
           (generate_pafs self xv yv edge_inds r2) as [o2|];
    try contradiction; [|reflexivity].
  cbn [mbind option_bind].
  destruct (mapM (generate_pafs self xv yv edge_inds) ds1) as [k1|],
           (mapM (generate_pafs self xv yv edge_inds) ds2) as [k2|];
    cbn [output_pafs option_map mbind option_bind mret option_ret map] in *;
    try discriminate; [|reflexivity].
  injection IH as IH. now rewrite Hhd, IH.
Qed.

(** C10: two input datasets whose records are the same but for the value of
    "skeleton_inds" give the same fields, record by record (and the one
    raises exactly when the other does); the skeletons after the first do not
    change the result either. *)
Theorem transform_dataset_ignores_skeleton_inds :
  forall (make_grid_vectors : nat -> nat -> Z -> option (list num * list num))
         (self : PartAffinityFieldsGenerator) (ds1 ds2 : list example),
    Forall2 same_but_skeleton_inds ds1 ds2 ->
    output_pafs (transform_dataset make_grid_vectors self ds1)
    = output_pafs (transform_dataset make_grid_vectors self ds2)
    /\ (forall (sk : Skeleton) (more : list Skeleton),
          transform_dataset make_grid_vectors
            (with_skeletons self (Some (sk :: more))) ds1
          = transform_dataset make_grid_vectors
              (with_skeletons self (Some [sk])) ds1).
Proof.
  intros mgv self ds1 ds2 Hsame. split.
  - unfold transform_dataset.
    destruct Hsame as [|r1 r2 ds1 ds2 Hr Hrest]; [reflexivity|].
    cbn [head mbind option_bind].
    rewrite <- (Hr "image"%string) by discriminate.
    destruct ((r1 !! "image"%string) ≫= tensor_shape) as [shape|]; [|reflexivity].
    cbn [mbind option_bind].
    destruct (shape !! 0%nat) as [h|]; [|reflexivity]. cbn [mbind option_bind].
    destruct (shape !! 1%nat) as [w|]; [|reflexivity]. cbn [mbind option_bind].
    destruct (mgv h w (output_stride self)) as [[xv yv]|]; [|reflexivity].
    cbn [mbind option_bind].
    destruct (skeletons self) as [sks|]; [|reflexivity]. cbn [mbind option_bind].
    destruct (head sks) as [sk|]; [|reflexivity]. cbn [mbind option_bind].
    apply mapM_same_pafs. now constructor.
  - intros sk more. reflexivity.
Qed.

Lemma same_but_skeleton_inds_insert (r : example) (v : value) :
  same_but_skeleton_inds r (<["skeleton_inds"%string := v]> r).
Proof.
  intros key Hkey. symmetry. apply lookup_insert_ne. congruence.
Qed.

Lemma transform_dataset_ignores_skeleton_inds_witness :
  output_pafs (transform_dataset make_grid_vectors_spec one_edge_generator
                 [record_plain])
  = output_pafs (transform_dataset make_grid_vectors_spec one_edge_generator
                   [<["skeleton_inds"%string := VInts [3%Z]]> record_plain]).
Proof.
  refine (proj1 (transform_dataset_ignores_skeleton_inds make_grid_vectors_spec
                   one_edge_generator [record_plain]
                   [<["skeleton_inds"%string := VInts [3%Z]]> record_plain] _)).
  constructor; [|constructor]. apply same_but_skeleton_inds_insert.
Defined.


(** * Further properties of the code *)

(** ** distance_to_edge: bounds and symmetry *)

Lemma along_reverse (s d : rpoint) (t : R) : along d s t = along s d (1 - t).
Proof. unfold along. cbn [fst snd]. f_equal; ring. Qed.

Lemma sq_dist_sym (p q : rpoint) : sq_dist p q = sq_dist q p.
Proof. unfold sq_dist. ring. Qed.

(** Whatever the length of the edge, the value is not more than the squared
    distance to the source. *)
Lemma clamped_le_source (p s d : rpoint) :
  clamped_segment_distance p s d <= sq_dist p s.
Proof.
  unfold clamped_segment_distance, clipped_projection. cbv zeta.
  destruct p as [px py], s as [sx sy], d as [dx dy].
  unfold sq_dist, along. cbn [fst snd].
  set (ux := dx - sx). set (uy := dy - sy).
  set (rx := px - sx). set (ry := py - sy).
  set (L := ux * ux + uy * uy).
  set (M := Rmax L 1).
  assert (HL : 0 <= L)
    by (unfold L; pose proof (square_nonneg ux); pose proof (square_nonneg uy); lra).
  assert (HM1 : 1 <= M) by apply Rmax_r.
  assert (HML : L <= M) by apply Rmax_l.
  set (q := (rx * ux + ry * uy) / M).
  assert (Hq : rx * ux + ry * uy = q * M) by (unfold q; field; lra).
  set (c := Rmax (Rmin q 1) 0).
  replace ((px - (sx + c * ux)) * (px - (sx + c * ux))
           + (py - (sy + c * uy)) * (py - (sy + c * uy)))
    with (rx * rx + ry * ry + (c * c * L - 2 * c * (rx * ux + ry * uy)))
    by (unfold rx, ry, L; ring).
  rewrite Hq. fold rx ry.
  assert (Hcases : (q <= 0 /\ c = 0) \/ (1 <= q /\ c = 1) \/ (0 <= q <= 1 /\ c = q)).
  { unfold c, Rmax, Rmin. repeat destruct (Rle_dec _ _); lra. }
  destruct Hcases as [[_ ->]|[[Hq1 ->]|[Hq01 ->]]].
  - lra.
  - assert (0 <= (q - 1) * M) by (apply Rmult_le_pos; lra). lra.
  - replace (q * q * L - 2 * q * (q * M)) with (- (q * q * (2 * M - L))) by ring.
    assert (0 <= q * q * (2 * M - L))
      by (apply Rmult_le_pos; [apply square_nonneg | lra]).
    lra.
Qed.

(** X1: on a grid of finite points and finite edges of any length, short
    ones included, the value [distance_to_edge] returns for a point and an
    edge is the squared distance from the point to some point of the segment
    (so it is not negative and not less than the distance to the segment) and
    is not more than the squared distance from the point to the source of
    the edge.  (Exact arithmetic.) *)
Theorem distance_to_edge_between_segment_and_source :
  forall (grid : list (list rpoint)) (row : list rpoint)
         (edges : list (rpoint * rpoint)) (i j e : nat) (p s d : rpoint),
    nth_error grid i = Some row -> nth_error row j = Some p ->
    nth_error edges e = Some (s, d) ->
    exists v t : R,
      entry3 (distance_to_edge (map (map fin_pt) grid)
                (map (fun e => fin_pt (fst e)) edges)
                (map (fun e => fin_pt (snd e)) edges)) i j e = Some (Fin v)
      /\ 0 <= t <= 1
      /\ v = sq_dist p (along s d t)
      /\ 0 <= v <= sq_dist p s.
Proof.
  intros grid row edges i j e p s d Hrow Hp He.
  exists (clamped_segment_distance p s d), (clipped_projection p s d).
  split; [|split; [apply clipped_projection_range|split; [reflexivity|]]].
  - rewrite distance_to_edge_fin. unfold entry3.
    rewrite nth_error_map, Hrow. cbn [option_map].
    rewrite nth_error_map, Hp. cbn [option_map].
    rewrite nth_error_map, He. reflexivity.
  - split; [apply sq_dist_nonneg | apply clamped_le_source].
Qed.

Lemma distance_to_edge_between_segment_and_source_witness :
  exists v t : R,
    entry3 (distance_to_edge (map (map fin_pt) [[(1, 1)]])
              (map (fun e => fin_pt (fst e)) [((0, 0), (1 / 2, 0))])
              (map (fun e => fin_pt (snd e)) [((0, 0), (1 / 2, 0))])) 0 0 0
    = Some (Fin v)
    /\ 0 <= t <= 1
    /\ v = sq_dist (1, 1) (along (0, 0) (1 / 2, 0) t)
    /\ 0 <= v <= sq_dist (1, 1) (0, 0).
Proof.
  exact (distance_to_edge_between_segment_and_source
           [[(1, 1)]] [(1, 1)] [((0, 0), (1 / 2, 0))] 0 0 0 (1, 1) (0, 0) (1 / 2, 0)
           eq_refl eq_refl eq_refl).
Defined.

Lemma clamped_reverse_le (p s d : rpoint) :
  1 <= sq_dist d s ->
  clamped_segment_distance p s d <= clamped_segment_distance p d s.
Proof.
  intros Hlen.
  pose proof (clipped_projection_range p d s) as Ht.
  unfold clamped_segment_distance at 2. rewrite along_reverse.
  apply clamped_is_least; [exact Hlen | lra].
Qed.

Lemma clamped_undirected (p s d : rpoint) :
  sq_dist d s = 0 \/ 1 <= sq_dist d s ->
  clamped_segment_distance p s d = clamped_segment_distance p d s.
Proof.
  intros [H0 | H1].
  - apply sq_dist_zero_eq in H0. now subst d.
  - apply Rle_antisym; apply clamped_reverse_le;
      [exact H1 | rewrite sq_dist_sym; exact H1].
Qed.

(** X2: in exact arithmetic the edges are undirected, as the docstring
    says, when no edge has a squared length strictly between 0 and 1:
    exchanging [edge_source] and [edge_destination] then leaves the distance
    of every point of a finite grid to every edge unchanged. *)
Theorem distance_to_edge_undirected :
  forall (grid : list (list rpoint)) (edges : list (rpoint * rpoint)),
    Forall (fun e => sq_dist (snd e) (fst e) = 0 \/ 1 <= sq_dist (snd e) (fst e))
      edges ->
    distance_to_edge (map (map fin_pt) grid)
      (map (fun e => fin_pt (snd e)) edges) (map (fun e => fin_pt (fst e)) edges)
    = distance_to_edge (map (map fin_pt) grid)
        (map (fun e => fin_pt (fst e)) edges) (map (fun e => fin_pt (snd e)) edges).
Proof.
  intros grid edges Hlen.
  rewrite distance_to_edge_fin.
  pose proof (distance_to_edge_fin grid (map (fun e => (snd e, fst e)) edges))
    as Hswap.
  rewrite !map_map in Hswap. cbn [fst snd] in Hswap. rewrite Hswap. clear Hswap.
  apply map_ext. intros row. apply map_ext. intros p.
  induction Hlen as [|e edges He _ IH]; [reflexivity|].
  cbn [map]. f_equal; [|exact IH]. f_equal. symmetry. now apply clamped_undirected.
Qed.

Lemma distance_to_edge_undirected_witness :
  distance_to_edge (map (map fin_pt) [[(1, 1)]])
    (map (fun e => fin_pt (snd e)) [((0, 0), (3, 0))])
    (map (fun e => fin_pt (fst e)) [((0, 0), (3, 0))])
  = distance_to_edge (map (map fin_pt) [[(1, 1)]])
      (map (fun e => fin_pt (fst e)) [((0, 0), (3, 0))])
      (map (fun e => fin_pt (snd e)) [((0, 0), (3, 0))]).
Proof.
  apply distance_to_edge_undirected.
  constructor; [|constructor]. right. unfold sq_dist. cbn [fst snd]. lra.
Defined.

(** ** Edges with a missing endpoint *)

Lemma nadd_nan_r (x : num) : nadd x NaN = NaN.
Proof. now destruct x. Qed.

Lemma ndiv_nan_r (x : num) : ndiv x NaN = NaN.
Proof. now destruct x. Qed.

Lemma nsub_nan_r (x : num) : nsub x NaN = NaN.
Proof. unfold nsub. cbn [nneg]. apply nadd_nan_r. Qed.

Lemma has_nan_sub (d s : point) :
  has_nan s || has_nan d = true -> has_nan (pt_sub d s) = true.
Proof.
  destruct s as [sx sy], d as [dx dy]. unfold has_nan, pt_sub, nsub. cbn [fst snd].
  destruct sx, sy, dx, dy; cbn; intros H; try discriminate; reflexivity.
Qed.

Lemma norm_nan (v : point) : has_nan v = true -> norm v = NaN.
Proof.
  destruct v as [[a| | |] [b| | |]]; unfold has_nan, norm; cbn; intros H;
    try discriminate; reflexivity.
Qed.

Lemma edge_direction_nan (s d : point) :
  has_nan s || has_nan d = true -> edge_direction s d = (NaN, NaN).
Proof.
  intros H. unfold edge_direction. rewrite (norm_nan _ (has_nan_sub d s H)).
  unfold pt_div. now rewrite !ndiv_nan_r.
Qed.

Lemma edge_distance_nan (p s d : point) :
  has_nan s || has_nan d = true -> edge_distance p s d = NaN.
Proof.
  intros H. pose proof (has_nan_sub d s H) as Hdv.
  unfold edge_distance. cbv zeta.
  destruct (pt_sub d s) as [vx vy]. destruct (pt_sub p s) as [rx ry].
  unfold has_nan in Hdv. cbn [fst snd] in Hdv.
  apply orb_true_iff in Hdv.
  unfold pt_mul, pt_square, pt_scale, pt_sub, reduce_sum, clip_by_value, nsquare.
  cbn [fst snd].
  destruct Hdv as [Hx | Hy].
  - destruct vx; try discriminate. rewrite nmul_nan_r. cbn [nadd ndiv nmin nmax nmul].
    reflexivity.
  - destruct vy; try discriminate. rewrite !nmul_nan_r, !nadd_nan_r.
    cbn [ndiv nmin nmax nmul nsub nadd]. rewrite ?nadd_nan_r. reflexivity.
Qed.

Lemma paf_entry_nan (p : point) (sigma : num) (s d : point) :
  has_nan s || has_nan d = true -> paf_entry p sigma s d = (NaN, NaN).
Proof.
  intros H. unfold paf_entry. rewrite (edge_direction_nan s d H).
  unfold pt_scale. cbn [fst snd]. now rewrite nmul_nan_r.
Qed.

(** X3: an edge with a NaN coordinate in its source or in its destination (a
    missing keypoint) has, at every grid cell, a NaN confidence in
    [make_edge_maps] and the vector (NaN, NaN) in [make_pafs]. *)
Theorem make_pafs_nan_endpoint :
  forall (xv yv : list num) (es ed : list point) (sigma : num)
         (i j e : nat) (s d : point),
    (i < length yv)%nat -> (j < length xv)%nat ->
    nth_error es e = Some s -> nth_error ed e = Some d ->
    has_nan s || has_nan d = true ->
    entry3 (make_edge_maps xv yv es ed sigma) i j e = Some NaN
    /\ cell (make_pafs xv yv es ed sigma) i j e = Some (NaN, NaN).
Proof.
  intros xv yv es ed sigma i j e s d Hi Hj Hs Hd Hnan.
  destruct (nth_error yv i) as [y|] eqn:Hy; [|apply nth_error_None in Hy; lia].
  destruct (nth_error xv j) as [x|] eqn:Hx; [|apply nth_error_None in Hx; lia].
  split.
  - rewrite (entry_make_edge_maps xv yv es ed sigma i j e x y s d Hy Hx Hs Hd).
    rewrite (edge_distance_nan _ s d Hnan). reflexivity.
  - rewrite (cell_make_pafs_entry xv yv es ed sigma i j e x y s d Hy Hx Hs Hd).
    now rewrite paf_entry_nan.
Qed.

Lemma make_pafs_nan_endpoint_witness :
  entry3 (make_edge_maps [Fin 0; Fin 1] [Fin 0] [(NaN, Fin 1)] [(Fin 2, Fin 1)] (Fin 1))
    0 1 0 = Some NaN
  /\ cell (make_pafs [Fin 0; Fin 1] [Fin 0] [(NaN, Fin 1)] [(Fin 2, Fin 1)] (Fin 1))
       0 1 0 = Some (NaN, NaN).
Proof.
  apply (make_pafs_nan_endpoint [Fin 0; Fin 1] [Fin 0] [(NaN, Fin 1)] [(Fin 2, Fin 1)]
           (Fin 1) 0 1 0 (NaN, Fin 1) (Fin 2, Fin 1)).
  - cbn. lia.
  - cbn. lia.
  - reflexivity.
  - reflexivity.
  - reflexivity.
Defined.

(** ** The zero field and the sum of fields *)

Lemma nadd_0_r (x : num) : nadd x (Fin 0) = x.
Proof. destruct x; cbn [nadd]; try reflexivity. f_equal. lra. Qed.

Lemma pt_add_0_r (p : point) : pt_add p (Fin 0, Fin 0) = p.
Proof. destruct p as [x y]. unfold pt_add. cbn [fst snd]. now rewrite !nadd_0_r. Qed.

Lemma pt_add_0_l (p : point) : pt_add (Fin 0, Fin 0) p = p.
Proof. rewrite pt_add_comm. apply pt_add_0_r. Qed.

Lemma zip_with_repeat_id {A B : Type} (f : A -> B -> A) (P : A -> Prop) (z : B) :
  (forall x, P x -> f x z = x) ->
  forall l, Forall P l -> zip_with f l (repeat z (length l)) = l.
Proof.
  intros Hf l Hl. induction Hl as [|x l Hx _ IH]; [reflexivity|].
  cbn [length repeat zip_with]. now rewrite Hf, IH.
Qed.

Lemma zip_with_assoc {A : Type} (f : A -> A -> A) :
  (forall x y z, f (f x y) z = f x (f y z)) ->
  forall a b c : list A,
    zip_with f (zip_with f a b) c = zip_with f a (zip_with f b c).
Proof.
  intros Hf a. induction a as [|x a IH]; intros [|y b] [|z c];
    cbn [zip_with]; try reflexivity.
  now rewrite Hf, IH.
Qed.

Lemma field_add_assoc (f g k : field) :
  field_add (field_add f g) k = field_add f (field_add g k).
Proof.
  unfold field_add.
  apply zip_with_assoc. apply zip_with_assoc. apply zip_with_assoc.
  apply pt_add_assoc.
Qed.

Lemma field_add_comm (f g : field) : field_add f g = field_add g f.
Proof.
  unfold field_add. revert g.
  induction f as [|r f IH]; intros [|r' g]; cbn [zip_with]; try reflexivity.
  rewrite IH. f_equal. clear. revert r'.
  induction r as [|c r IH]; intros [|c' r']; cbn [zip_with]; try reflexivity.
  rewrite IH. f_equal. clear. revert c'.
  induction c as [|p c IH]; intros [|p' c']; cbn [zip_with]; try reflexivity.
  now rewrite IH, pt_add_comm.
Qed.

Lemma field_add_zeros_r (h w n : nat) (f : field) :
  shaped h w n f -> field_add f (zeros h w n) = f.
Proof.
  intros [Hlen Hrows]. unfold field_add, zeros. rewrite <- Hlen.
  apply (zip_with_repeat_id _
           (fun row => length row = w
                       /\ Forall (fun c : list point => length c = n) row));
    [|exact Hrows].
  intros row [Hw Hcells]. rewrite <- Hw.
  apply (zip_with_repeat_id _ (fun c : list point => length c = n));
    [|exact Hcells].
  intros c Hc. rewrite <- Hc.
  apply (zip_with_repeat_id _ (fun _ => True)).
  - intros p _. apply pt_add_0_r.
  - clear. induction c; constructor; auto.
Qed.

Lemma field_add_zeros_l (h w n : nat) (f : field) :
  shaped h w n f -> field_add (zeros h w n) f = f.
Proof. intros Hf. rewrite field_add_comm. now apply field_add_zeros_r. Qed.

Lemma map_const_repeat {A B : Type} (c : B) (l : list A) :
  map (fun _ => c) l = repeat c (length l).
Proof. induction l as [|x l IH]; [reflexivity|]. cbn [map length repeat]. now rewrite IH. Qed.

Lemma paf_entries_all_nan (p : point) (sigma : num) (ss ds : list point) :
  Forall2 (fun s d => has_nan s || has_nan d = true) ss ds ->
  paf_entries p ss ds sigma = repeat (NaN, NaN) (length ss).
Proof.
  intros H. rewrite paf_entries_zip.
  induction H as [|s d ss ds Hsd _ IH]; [reflexivity|].
  cbn [zip_with length repeat]. now rewrite paf_entry_nan, IH.
Qed.

Lemma instance_paf_all_nan (xv yv : list num) (sigma : num) (ss ds : list point) :
  Forall2 (fun s d => has_nan s || has_nan d = true) ss ds ->
  instance_paf xv yv sigma (ss, ds) = zeros (length yv) (length xv) (length ss).
Proof.
  intros H. unfold instance_paf, zeros. cbn [fst snd].
  rewrite make_pafs_entries, !map_map.
  rewrite <- (map_const_repeat _ yv). apply map_ext. intros y.
  rewrite map_map, <- (map_const_repeat _ xv). apply map_ext. intros x.
  rewrite (paf_entries_all_nan _ _ _ _ H), map_repeat. reflexivity.
Qed.

(** X4: an instance every edge of which has a NaN coordinate in an endpoint
    (all its keypoints missing, say) does not change the result of
    [make_multi_pafs], wherever it stands among the instances. *)
Theorem make_multi_pafs_ignores_nan_instance :
  forall (xv yv : list num) (sigma : num)
         (l1 l2 : list (list point * list point)) (ss ds : list point),
    Forall2 (fun s d => has_nan s || has_nan d = true) ss ds ->
    make_multi_pafs xv yv
      (Tensor3 (length ss) (map fst (l1 ++ (ss, ds) :: l2)))
      (Tensor3 (length ss) (map snd (l1 ++ (ss, ds) :: l2))) sigma
    = make_multi_pafs xv yv
        (Tensor3 (length ss) (map fst (l1 ++ l2)))
        (Tensor3 (length ss) (map snd (l1 ++ l2))) sigma.
Proof.
  intros xv yv sigma l1 l2 ss ds Hnan.
  rewrite !make_multi_pafs_fold.
  rewrite !(fold_left_map field_add (instance_paf xv yv sigma)).
  rewrite (fold_field_add_perm
             (map (instance_paf xv yv sigma) (l1 ++ (ss, ds) :: l2))
             (map (instance_paf xv yv sigma) ((ss, ds) :: l1 ++ l2))).
  - cbn [map fold_left]. rewrite (instance_paf_all_nan _ _ _ _ _ Hnan).
    rewrite field_add_zeros_r by apply shaped_zeros. reflexivity.
  - apply Permutation_map. symmetry. apply Permutation_middle.
Qed.

Lemma make_multi_pafs_ignores_nan_instance_witness :
  make_multi_pafs [Fin 0; Fin 1] [Fin 0]
    (Tensor3 (length [(NaN, NaN)])
       (map fst ([([fin_pt (0, 0)], [fin_pt (3, 0)])]
                 ++ ([(NaN, NaN)], [fin_pt (1, 1)]) :: [])))
    (Tensor3 (length [(NaN, NaN)])
       (map snd ([([fin_pt (0, 0)], [fin_pt (3, 0)])]
                 ++ ([(NaN, NaN)], [fin_pt (1, 1)]) :: []))) (Fin 1)
  = make_multi_pafs [Fin 0; Fin 1] [Fin 0]
      (Tensor3 (length [(NaN, NaN)])
         (map fst ([([fin_pt (0, 0)], [fin_pt (3, 0)])] ++ [])))
      (Tensor3 (length [(NaN, NaN)])
         (map snd ([([fin_pt (0, 0)], [fin_pt (3, 0)])] ++ []))) (Fin 1).
Proof.
  apply (make_multi_pafs_ignores_nan_instance [Fin 0; Fin 1] [Fin 0] (Fin 1)
           [([fin_pt (0, 0)], [fin_pt (3, 0)])] [] [(NaN, NaN)] [fin_pt (1, 1)]).
  constructor; [reflexivity | constructor].
Defined.

(** ** make_multi_pafs: composition and shape *)

Lemma fold_instances_from (xv yv : list num) (n : nat) (sigma : num)
    (l : list (list point * list point)) :
  Forall (fun sd => length (fst sd) = n /\ length (snd sd) = n) l ->
  forall acc, shaped (length yv) (length xv) n acc ->
    fold_left (fun pafs sd => field_add pafs (instance_paf xv yv sigma sd)) l acc
    = field_add acc
        (fold_left (fun pafs sd => field_add pafs (instance_paf xv yv sigma sd)) l
           (zeros (length yv) (length xv) n)).
Proof.
  induction 1 as [|sd l [Hs Hd] _ IH]; intros acc Hacc.
  - cbn [fold_left]. symmetry. now apply field_add_zeros_r.
  - cbn [fold_left].
    pose proof (shaped_instance_paf xv yv sigma n sd Hs Hd) as Hsd.
    rewrite (IH (field_add acc _)) by now apply shaped_field_add.
    rewrite (IH (field_add (zeros _ _ _) _))
      by (apply shaped_field_add; [apply shaped_zeros | exact Hsd]).
    rewrite (field_add_zeros_l _ _ _ _ Hsd).
    apply field_add_assoc.
Qed.

(** X5: [make_multi_pafs] is additive over the instance axis: the field of
    the instances [l1] followed by [l2] is the entry-wise sum of the field of
    [l1] and the field of [l2] (every instance having [n_edges] edges). *)
Theorem make_multi_pafs_concat :
  forall (xv yv : list num) (n_edges : nat) (sigma : num)
         (l1 l2 : list (list point * list point)),
    Forall (fun sd => length (fst sd) = n_edges /\ length (snd sd) = n_edges) l1 ->
    Forall (fun sd => length (fst sd) = n_edges /\ length (snd sd) = n_edges) l2 ->
    make_multi_pafs xv yv
      (Tensor3 n_edges (map fst (l1 ++ l2))) (Tensor3 n_edges (map snd (l1 ++ l2)))
      sigma
    = field_add
        (make_multi_pafs xv yv
           (Tensor3 n_edges (map fst l1)) (Tensor3 n_edges (map snd l1)) sigma)
        (make_multi_pafs xv yv
           (Tensor3 n_edges (map fst l2)) (Tensor3 n_edges (map snd l2)) sigma).
Proof.
  intros xv yv n sigma l1 l2 H1 H2.
  pose proof (shaped_make_multi_pafs xv yv n sigma l1 H1) as Hs1.
  rewrite !make_multi_pafs_fold in *. rewrite fold_left_app.
  now apply fold_instances_from.
Qed.

Lemma make_multi_pafs_concat_witness :
  make_multi_pafs [Fin 0; Fin 1] [Fin 0]
    (Tensor3 1 (map fst ([([fin_pt (0, 0)], [fin_pt (3, 0)])]
                         ++ [([fin_pt (1, 1)], [fin_pt (1, 4)])])))
    (Tensor3 1 (map snd ([([fin_pt (0, 0)], [fin_pt (3, 0)])]
                         ++ [([fin_pt (1, 1)], [fin_pt (1, 4)])]))) (Fin 1)
  = field_add
      (make_multi_pafs [Fin 0; Fin 1] [Fin 0]
         (Tensor3 1 (map fst [([fin_pt (0, 0)], [fin_pt (3, 0)])]))
         (Tensor3 1 (map snd [([fin_pt (0, 0)], [fin_pt (3, 0)])])) (Fin 1))
      (make_multi_pafs [Fin 0; Fin 1] [Fin 0]
         (Tensor3 1 (map fst [([fin_pt (1, 1)], [fin_pt (1, 4)])]))
         (Tensor3 1 (map snd [([fin_pt (1, 1)], [fin_pt (1, 4)])])) (Fin 1)).
Proof.
  apply make_multi_pafs_concat; repeat constructor.
Defined.

(** X7: the tensors have the shapes the docstrings give: with [n_edges]
    edges, [make_edge_maps] has shape (grid_height, grid_width, n_edges) and
    [make_pafs] has shape (grid_height, grid_width, n_edges, 2); with
    instances of [n_edges] edges each, so has [make_multi_pafs], whatever
    the number of instances. *)
Theorem field_shapes :
  forall (xv yv : list num) (n_edges : nat) (sigma : num) (es ed : list point)
         (insts : list (list point * list point)),
    length es = n_edges -> length ed = n_edges ->
    Forall (fun sd => length (fst sd) = n_edges /\ length (snd sd) = n_edges) insts ->
    shaped3 (length yv) (length xv) n_edges (make_edge_maps xv yv es ed sigma)
    /\ shaped (length yv) (length xv) n_edges (make_pafs xv yv es ed sigma)
    /\ shaped (length yv) (length xv) n_edges
         (make_multi_pafs xv yv
            (Tensor3 n_edges (map fst insts)) (Tensor3 n_edges (map snd insts)) sigma).
Proof.
  intros xv yv n sigma es ed insts Hs Hd Hinsts. split; [|split].
  - unfold shaped3, make_edge_maps, sampling_grid, distance_to_edge.
    rewrite !map_map. split; [apply length_map|].
    apply Forall_map_all. intros y. rewrite !map_map.
    split; [apply length_map|].
    apply Forall_map_all. intros x.
    fold (point_distances (x, y) es ed).
    rewrite length_map, point_distances_zip, length_zip_with. lia.
  - unfold shaped. rewrite make_pafs_entries. split; [apply length_map|].
    apply Forall_map_all. intros y. split; [apply length_map|].
    apply Forall_map_all. intros x. now apply length_paf_entries.
  - now apply shaped_make_multi_pafs.
Qed.

Lemma field_shapes_witness :
  shaped 1 2 1 (make_pafs [Fin 0; Fin 1] [Fin 0] [fin_pt (0, 0)] [fin_pt (3, 0)] (Fin 1)).
Proof.
  exact (proj1 (proj2 (field_shapes [Fin 0; Fin 1] [Fin 0] 1 (Fin 1)
                         [fin_pt (0, 0)] [fin_pt (3, 0)] [] eq_refl eq_refl
                         (Forall_nil_2 _)))).
Defined.

(** ** make_multi_pafs: a bound on the entries *)

Lemma exp_nonpos_le_1 (a : R) : a <= 0 -> 0 <= exp a <= 1.
Proof.
  intros Ha. split; [left; apply exp_pos|].
  rewrite <- exp_0. destruct Ha as [Hlt | ->]; [left; now apply exp_increasing | right; reflexivity].
Qed.

(** The confidence lies in [0, 1] or is NaN, whatever the distance and
    [sigma]. *)
Lemma gaussian_pdf_unit_interval (x sigma : num) :
  unit_interval_or_nan (gaussian_pdf x sigma).
Proof.
  unfold gaussian_pdf.
  assert (Hden : forall b, Rltb (2 * (b * b)) 0 = false).
  { intros b. apply Rltb_false. pose proof (square_nonneg b). lra. }
  assert (Hnum : forall a, Rltb 0 (- (a * a)) = false).
  { intros a. apply Rltb_false. pose proof (square_nonneg a). lra. }
  assert (Hpos : Rltb 0 2 = true) by (apply Rltb_true; lra).
  assert (H0 : 0 <= exp 0 <= 1) by (apply exp_nonpos_le_1; lra).
  assert (Hz : 0 <= 0 <= 1) by lra.
  destruct x as [a| | |], sigma as [b| | |];
    cbn [nsquare nmul nneg ndiv nexp unit_interval_or_nan inf_of_sign];
    unfold inf_of_sign; rewrite ?Hpos; cbn [ndiv nexp unit_interval_or_nan];
    rewrite ?Hden; cbn [ndiv nexp unit_interval_or_nan]; try exact I;
    try exact H0; try exact Hz.
  rewrite Hnum.
  destruct (Reqb (2 * (b * b)) 0) eqn:E0.
  - destruct (Rltb (- (a * a)) 0); cbn [nexp unit_interval_or_nan];
      [exact Hz | exact I].
  - cbn [nexp unit_interval_or_nan]. apply exp_nonpos_le_1.
    assert (Hne : 2 * (b * b) <> 0).
    { unfold Reqb in E0. destruct (Req_dec_T (2 * (b * b)) 0); [discriminate | assumption]. }
    pose proof (square_nonneg b) as Hb. pose proof (square_nonneg a) as Ha.
    assert (Hd : 0 < 2 * (b * b)) by lra.
    pose proof (Rinv_0_lt_compat _ Hd) as Hinv.
    unfold Rdiv.
    assert (0 <= a * a * / (2 * (b * b))) by (apply Rmult_le_pos; lra).
    lra.
Qed.

(** The coordinates of a direction lie in [-1, 1] or are NaN. *)
Lemma direction_signed_unit (v : point) :
  signed_unit_or_nan (fst (pt_div v (norm v)))
  /\ signed_unit_or_nan (snd (pt_div v (norm v))).
Proof.
  pose proof (norm_cases v) as Hn.
  destruct (norm v) as [n| | |] eqn:En; try contradiction.
  - destruct Hn as [Hpos [a [b [-> Hn]]]].
    unfold pt_div. cbn [fst snd ndiv].
    destruct (Reqb n 0) eqn:E0.
    + pose proof (direction_fin_or_nan (Fin a, Fin b)) as Hf.
      rewrite En in Hf. unfold pt_div, pt_fin_or_nan in Hf.
      cbn [fst snd ndiv] in Hf. rewrite E0 in Hf.
      destruct Hf as [Hfa Hfb].
      assert (Hinf : forall c r, inf_of_sign c <> Fin r).
      { intros c r. unfold inf_of_sign.
        destruct (Rltb 0 c), (Rltb c 0); discriminate. }
      destruct (inf_of_sign a) eqn:Ea, (inf_of_sign b) eqn:Eb;
        try contradiction; try (exfalso; eapply Hinf; eassumption);
        split; exact I.
    + assert (Hne : n <> 0).
      { unfold Reqb in E0. destruct (Req_dec_T n 0); [discriminate | assumption]. }
      assert (Hn0 : 0 < n) by lra.
      pose proof (square_nonneg a) as Ha. pose proof (square_nonneg b) as Hb.
      assert (Hsq : n * n = a * a + b * b)
        by (rewrite Hn; apply sqrt_sqrt; lra).
      assert (Hbound : forall c, c * c <= n * n -> -1 <= c / n <= 1).
      { intros c Hc.
        assert (Hcn : - n <= c <= n) by (split; nra).
        pose proof (Rinv_0_lt_compat _ Hn0) as Hinv.
        assert (Hone : n * / n = 1) by (field; lra).
        unfold Rdiv. split.
        - assert (0 <= (c + n) * / n) by (apply Rmult_le_pos; lra). nra.
        - assert (0 <= (n - c) * / n) by (apply Rmult_le_pos; lra). nra. }
      cbn [signed_unit_or_nan]. split; apply Hbound; lra.
  - assert (H0 : -1 <= 0 <= 1) by lra.
    destruct v as [[a| | |] [b| | |]]; unfold pt_div;
      cbn [fst snd ndiv signed_unit_or_nan]; split; try exact I; exact H0.
  - destruct v as [[a| | |] [b| | |]]; unfold pt_div;
      cbn [fst snd ndiv signed_unit_or_nan]; split; exact I.
Qed.

Lemma paf_entry_bounded (p : point) (sigma : num) (s d : point) :
  pt_bounded 1 (pt_nan_to_zero (paf_entry p sigma s d)).
Proof.
  unfold paf_entry, edge_direction.
  pose proof (gaussian_pdf_unit_interval (edge_distance p s d) sigma) as Hc.
  pose proof (direction_signed_unit (pt_sub d s)) as [Hx Hy].
  destruct (gaussian_pdf (edge_distance p s d) sigma) as [c| | |];
    try contradiction;
    destruct (pt_div (pt_sub d s) (norm (pt_sub d s))) as [[ux| | |] [uy| | |]];
    cbn [fst snd signed_unit_or_nan unit_interval_or_nan] in *;
    try contradiction;
    unfold pt_scale, pt_nan_to_zero, nan_to_zero, pt_bounded;
    cbn [fst snd nmul is_nan]; try (split; lra); split; split; nra.
Qed.

Lemma Forall_zip_with_all {A B C : Type} (S : C -> Prop) (f : A -> B -> C) :
  (forall x y, S (f x y)) -> forall l k, Forall S (zip_with f l k).
Proof.
  intros Hf l. induction l as [|x l IH]; intros [|y k]; cbn [zip_with];
    constructor; auto.
Qed.

Lemma all_cells_instance_paf_bounded (xv yv : list num) (sigma : num)
    (sd : list point * list point) :
  all_cells (pt_bounded 1) (instance_paf xv yv sigma sd).
Proof.
  unfold all_cells, instance_paf. rewrite make_pafs_entries, !map_map.
  apply Forall_map_all. intros y. rewrite map_map.
  apply Forall_map_all. intros x.
  rewrite paf_entries_zip.
  generalize (fst sd) as es. generalize (snd sd) as ed. intros ed es. revert ed.
  induction es as [|s es IH]; intros [|d ed]; cbn [zip_with map]; constructor.
  - apply paf_entry_bounded.
  - apply IH.
Qed.

Lemma pt_add_bounded (m : R) (p q : point) :
  pt_bounded m p -> pt_bounded 1 q -> pt_bounded (m + 1) (pt_add p q).
Proof.
  destruct p as [[a| | |] [b| | |]], q as [[c| | |] [d| | |]];
    cbn [pt_bounded]; try contradiction.
  intros [Ha Hb] [Hc Hd]. unfold pt_add. cbn [fst snd nadd pt_bounded].
  split; lra.
Qed.

Lemma all_cells_field_add_bounded (m : R) (f g : field) :
  all_cells (pt_bounded m) f -> all_cells (pt_bounded 1) g ->
  all_cells (pt_bounded (m + 1)) (field_add f g).
Proof.
  unfold all_cells, field_add.
  apply Forall_zip_with_both. apply Forall_zip_with_both.
  apply Forall_zip_with_both. apply pt_add_bounded.
Qed.

Lemma all_cells_fold_bounded (xv yv : list num) (sigma : num)
    (l : list (list point * list point)) :
  forall (m : R) (acc : field),
    all_cells (pt_bounded m) acc ->
    all_cells (pt_bounded (m + INR (length l)))
      (fold_left (fun pafs sd => field_add pafs (instance_paf xv yv sigma sd)) l acc).
Proof.
  induction l as [|sd l IH]; intros m acc Hacc.
  - cbn [fold_left length INR]. now rewrite Rplus_0_r.
  - cbn [fold_left length]. rewrite S_INR.
    replace (m + (INR (length l) + 1)) with (m + 1 + INR (length l)) by ring.
    apply IH. apply all_cells_field_add_bounded;
      [exact Hacc | apply all_cells_instance_paf_bounded].
Qed.

(** X8: every coordinate of every entry of [make_multi_pafs] is a finite
    number whose absolute value is at most the number of instances: each
    instance adds, after NaN is replaced by 0, a confidence of [0, 1] times a
    coordinate of a unit vector. *)
Theorem make_multi_pafs_bounded :
  forall (xv yv : list num) (n_edges : nat) (sigma : num)
         (insts : list (list point * list point)),
    all_cells (pt_bounded (INR (length insts)))
      (make_multi_pafs xv yv
         (Tensor3 n_edges (map fst insts)) (Tensor3 n_edges (map snd insts)) sigma).
Proof.
  intros xv yv n sigma insts. rewrite make_multi_pafs_fold.
  rewrite <- (Rplus_0_l (INR (length insts))).
  apply all_cells_fold_bounded. apply all_cells_zeros.
  cbn [pt_bounded]. split; lra.
Qed.

(** ** The peak of the field on the edge *)



(** ** get_edge_points *)

Lemma gather1_lookup (t t' : tensor3) (inds : list nat) :
  gather1 t inds = Some t' ->
  Forall2 (fun (row r : list point) =>
             Forall2 (fun (i : nat) (p : point) => row !! i = Some p) inds r)
    (items t) (items t').
Proof.
  unfold gather1.
  destruct (mapM _ (items t)) as [rows|] eqn:E; [|discriminate].
  cbn [mbind option_bind]. intros [= <-]. cbn [items].
  apply mapM_Some in E.
  eapply Forall2_impl; [exact E|]. intros row r Hr. now apply mapM_Some in Hr.
Qed.

Lemma lookup_map {A B : Type} (f : A -> B) (l : list A) (i : nat) :
  map f l !! i = option_map f (l !! i).
Proof.
  revert i. induction l as [|x l IH]; intros [|i]; cbn; try reflexivity. apply IH.
Qed.

(** With an instance present, an edge index that is no node index makes the
    gather raise. *)
Lemma get_edge_points_out_of_range (t : tensor3) (edge_inds : list (nat * nat))
    (a b : nat) :
  rect3 t -> items t <> [] -> In (a, b) edge_inds ->
  (dim1 t <= a)%nat \/ (dim1 t <= b)%nat ->
  get_edge_points t edge_inds = None.
Proof.
  intros Hrect Hne Hin Hout.
  destruct (get_edge_points t edge_inds) as [[es ed]|] eqn:Hg; [|reflexivity].
  exfalso.
  unfold get_edge_points in Hg.
  destruct (gather1 t (map fst edge_inds)) as [es'|] eqn:Es; [|discriminate].
  cbn [mbind option_bind] in Hg.
  destruct (gather1 t (map snd edge_inds)) as [ed'|] eqn:Ed; [|discriminate].
  pose proof (gather1_lookup _ _ _ Es) as Hs.
  pose proof (gather1_lookup _ _ _ Ed) as Hd.
  destruct (items t) as [|row rows] eqn:Hitems; [contradiction|].
  assert (Hlen : length row = dim1 t).
  { unfold rect3 in Hrect. rewrite Hitems in Hrect. now inversion Hrect. }
  apply list_elem_of_In, list_elem_of_lookup in Hin. destruct Hin as [k Hk].
  inversion Hs as [|? rs ? ? Hfs _]; subst.
  inversion Hd as [|? rd ? ? Hfd _]; subst.
  assert (Hka : map fst edge_inds !! k = Some a)
    by (rewrite lookup_map, Hk; reflexivity).
  assert (Hkb : map snd edge_inds !! k = Some b)
    by (rewrite lookup_map, Hk; reflexivity).
  destruct (Forall2_lookup_l _ _ _ _ _ Hfs Hka) as [p [_ Hrp]].
  destruct (Forall2_lookup_l _ _ _ _ _ Hfd Hkb) as [q [_ Hrq]].
  apply lookup_lt_Some in Hrp. apply lookup_lt_Some in Hrq. lia.
Qed.

(** X10: [get_edge_points] gathers, for every instance and every edge, the
    keypoint of the source node into [edge_sources] and the keypoint of the
    destination node into [edge_destinations], both of shape
    (n_instances, n_edges, 2), when every edge index is a node index; with an
    instance present and an edge index that is no node index it raises. *)
Theorem get_edge_points_gathers :
  forall (t : tensor3) (edge_inds : list (nat * nat)),
    rect3 t ->
    (edges_in_range edge_inds (dim1 t) ->
     exists es ed : tensor3,
       get_edge_points t edge_inds = Some (es, ed)
       /\ dim1 es = length edge_inds /\ dim1 ed = length edge_inds
       /\ length (items es) = length (items t)
       /\ length (items ed) = length (items t)
       /\ forall (i k a b : nat) (row : list point),
            items t !! i = Some row -> edge_inds !! k = Some (a, b) ->
            exists (ps pd : list point) (p q : point),
              items es !! i = Some ps /\ items ed !! i = Some pd
              /\ ps !! k = Some p /\ row !! a = Some p
              /\ pd !! k = Some q /\ row !! b = Some q)
    /\ (forall (a b : nat),
          items t <> [] -> In (a, b) edge_inds ->
          (dim1 t <= a)%nat \/ (dim1 t <= b)%nat ->
          get_edge_points t edge_inds = None).
Proof.
  intros t edge_inds Hrect. split.
  - intros Hrange.
    destruct (get_edge_points_is_Some t edge_inds Hrect Hrange) as [[es ed] Hg].
    exists es, ed. split; [exact Hg|].
    unfold get_edge_points in Hg.
    destruct (gather1 t (map fst edge_inds)) as [es'|] eqn:Es; [|discriminate].
    cbn [mbind option_bind] in Hg.
    destruct (gather1 t (map snd edge_inds)) as [ed'|] eqn:Ed; [|discriminate].
    cbn [mbind option_bind] in Hg. injection Hg as <- <-.
    pose proof (gather1_lookup _ _ _ Es) as Hs.
    pose proof (gather1_lookup _ _ _ Ed) as Hd.
    destruct (gather1_Some _ _ _ Es) as [Hds _].
    destruct (gather1_Some _ _ _ Ed) as [Hdd _].
    rewrite length_map in Hds, Hdd.
    split; [exact Hds|]. split; [exact Hdd|].
    split; [symmetry; eapply Forall2_length; exact Hs|].
    split; [symmetry; eapply Forall2_length; exact Hd|].
    intros i k a b row Hrow Hk.
    destruct (Forall2_lookup_l _ _ _ _ _ Hs Hrow) as [ps [Hps Hfs]].
    destruct (Forall2_lookup_l _ _ _ _ _ Hd Hrow) as [pd [Hpd Hfd]].
    assert (Hka : map fst edge_inds !! k = Some a)
      by (rewrite lookup_map, Hk; reflexivity).
    assert (Hkb : map snd edge_inds !! k = Some b)
      by (rewrite lookup_map, Hk; reflexivity).
    destruct (Forall2_lookup_l _ _ _ _ _ Hfs Hka) as [p [Hp Hrp]].
    destruct (Forall2_lookup_l _ _ _ _ _ Hfd Hkb) as [q [Hq Hrq]].
    exists ps, pd, p, q. repeat split; assumption.
  - intros a b Hne Hin Hout.
    now apply (get_edge_points_out_of_range t edge_inds a b).
Qed.

Lemma get_edge_points_gathers_witness :
  exists es ed : tensor3,
    get_edge_points (Tensor3 2 [[fin_pt (0, 0); fin_pt (3, 4)]]) [(0, 1)%nat]
    = Some (es, ed)
    /\ dim1 es = 1%nat /\ dim1 ed = 1%nat.
Proof.
  assert (Hrect : rect3 (Tensor3 2 [[fin_pt (0, 0); fin_pt (3, 4)]]))
    by (constructor; [reflexivity | constructor]).
  assert (Hrange : edges_in_range [(0, 1)%nat] 2)
    by (constructor; [cbn; lia | constructor]).
  destruct (proj1 (get_edge_points_gathers _ [(0, 1)%nat] Hrect) Hrange)
    as [es [ed [Hg [H1 [H2 _]]]]].
  exists es, ed. repeat split; assumption.
Defined.

(** ** The stage as a whole *)

Lemma generate_pafs_Some_inv (self : PartAffinityFieldsGenerator)
    (xv yv : list num) (edge_inds : list (nat * nat)) (x y : example) :
  generate_pafs self xv yv edge_inds x = Some y ->
  exists (t : tensor3) (v : value),
    x !! "instances"%string = Some (VInstances t)
    /\ paf_tensor self xv yv edge_inds t = Some v
    /\ y = <["part_affinity_fields"%string := v]> x.
Proof.
  rewrite generate_pafs_unfold.
  destruct (x !! "instances"%string) as [[| t | | |]|] eqn:Hx;
    cbn [mbind option_bind as_instances]; try discriminate.
  destruct (paf_tensor self xv yv edge_inds t) as [v|] eqn:Hv;
    cbn [mbind option_bind]; [|discriminate].
  intros [= <-]. exists t, v. repeat split; assumption.
Qed.

Lemma transform_dataset_Some_inv
    (make_grid_vectors : nat -> nat -> Z -> option (list num * list num))
    (self : PartAffinityFieldsGenerator) (ds out : list example) :
  transform_dataset make_grid_vectors self ds = Some out ->
  exists (xv yv : list num) (edge_inds : list (nat * nat)),
    Forall2 (fun x y => generate_pafs self xv yv edge_inds x = Some y) ds out
    /\ forall ds' : list example,
         head ds' ≫= (fun ex => ex !! "image"%string)
         = head ds ≫= (fun ex => ex !! "image"%string) ->
         transform_dataset make_grid_vectors self ds'
         = mapM (generate_pafs self xv yv edge_inds) ds'.
Proof.
  unfold transform_dataset. intros H.
  destruct (head ds) as [first|] eqn:Hhead; [|discriminate].
  cbn [mbind option_bind] in H.
  destruct ((first !! "image"%string) ≫= tensor_shape) as [shape|] eqn:Hshape;
    [|discriminate].
  cbn [mbind option_bind] in H.
  destruct (shape !! 0%nat) as [h|] eqn:Hh; [|discriminate].
  cbn [mbind option_bind] in H.
  destruct (shape !! 1%nat) as [w|] eqn:Hw; [|discriminate].
  cbn [mbind option_bind] in H.
  destruct (make_grid_vectors h w (output_stride self)) as [[xv yv]|] eqn:Hgrid;
    [|discriminate].
  cbn [mbind option_bind] in H.
  destruct (skeletons self) as [sks|] eqn:Hsks; [|discriminate].
  cbn [mbind option_bind] in H.
  destruct (head sks) as [sk|] eqn:Hsk; [|discriminate].
  cbn [mbind option_bind] in H.
  exists xv, yv, (edge_inds sk). split; [now apply mapM_Some|].
  intros ds' Himg.
  destruct (head ds') as [first'|]; cbn [mbind option_bind] in *;
    [|rewrite <- Himg in Hshape; discriminate].
  rewrite Himg, Hshape. cbn [mbind option_bind]. rewrite Hh, Hw.
  cbn [mbind option_bind]. rewrite Hgrid. cbn [mbind option_bind].
  rewrite ?Hsks. cbn [mbind option_bind]. rewrite ?Hsk. reflexivity.
Qed.

(** A record without instances, through the whole stage. *)
Lemma transform_dataset_no_instances (ex : example) :
  ex !! "image"%string = Some (VTensor [2; 2; 1]%nat [Fin 0; Fin 0; Fin 0; Fin 0]) ->
  ex !! "instances"%string = Some (VInstances (Tensor3 2 [])) ->
  transform_dataset make_grid_vectors_spec one_edge_generator [ex]
  = Some [<["part_affinity_fields"%string := VField (zeros 2 2 1)]> ex].
Proof.
  intros Himg Hinst.
  rewrite (transform_dataset_setup make_grid_vectors_spec one_edge_generator [ex] ex
             2 2 [1%nat] [Fin 0; Fin 0; Fin 0; Fin 0]
             (grid_vector 2 1) (grid_vector 2 1) {| edge_inds := [(0, 1)%nat] |} []
             eq_refl Himg eq_refl eq_refl).
  apply mapM_Some. constructor; [|constructor].
  assert (Hlen : length (grid_vector 2 1) = 2%nat)
    by (unfold grid_vector; rewrite length_map, length_seq; reflexivity).
  destruct (last (grid_vector 2 1)) as [m|] eqn:Hlast;
    [|apply last_None in Hlast; rewrite Hlast in Hlen; discriminate].
  cbn [edge_inds].
  assert (Hedges : [(0, 1)%nat] <> []) by discriminate.
  rewrite (generate_pafs_empty_mask one_edge_generator _ _ _ ex (Tensor3 2 []) m m
             Hedges Hinst Hlast Hlast eq_refl).
  rewrite Hlen. reflexivity.
Qed.

(** X11: the stage is idempotent: applied to its own output it returns that
    output unchanged, the key "part_affinity_fields" being recomputed from
    the same instances. *)
Theorem transform_dataset_idempotent :
  forall (make_grid_vectors : nat -> nat -> Z -> option (list num * list num))
         (self : PartAffinityFieldsGenerator) (ds out : list example),
    transform_dataset make_grid_vectors self ds = Some out ->
    transform_dataset make_grid_vectors self out = Some out.
Proof.
  intros mgv self ds out H.
  destruct (transform_dataset_Some_inv mgv self ds out H)
    as [xv [yv [ei [Hall Hsetup]]]].
  assert (Hfix : Forall2 (fun x y => generate_pafs self xv yv ei x = Some y) out out).
  { clear -Hall. induction Hall as [|x y ds out Hxy _ IH]; constructor; [|exact IH].
    destruct (generate_pafs_Some_inv _ _ _ _ _ _ Hxy) as [t [v [Hx [Hv ->]]]].
    rewrite generate_pafs_unfold.
    rewrite lookup_insert_ne by discriminate. rewrite Hx.
    cbn [mbind option_bind as_instances]. rewrite Hv. cbn [mbind option_bind].
    now rewrite insert_insert_eq. }
  rewrite (Hsetup out); [now apply mapM_Some|].
  destruct Hall as [|x y ds out Hxy _]; [reflexivity|].
  cbn [head mbind option_bind].
  destruct (generate_pafs_Some_inv _ _ _ _ _ _ Hxy) as [t [v [_ [_ ->]]]].
  now apply lookup_insert_ne.
Qed.

Lemma transform_dataset_idempotent_witness :
  transform_dataset make_grid_vectors_spec one_edge_generator
    [<["part_affinity_fields"%string := VField (zeros 2 2 1)]> record_plain]
  = Some [<["part_affinity_fields"%string := VField (zeros 2 2 1)]> record_plain].
Proof.
  apply (transform_dataset_idempotent make_grid_vectors_spec one_edge_generator
           [record_plain]).
  apply transform_dataset_no_instances; reflexivity.
Defined.

(** X12: the declared keys are the keys of the records: when every input
    record has exactly the keys [input_keys], every output record has
    exactly the keys [output_keys]. *)
Theorem transform_dataset_output_keys :
  forall (make_grid_vectors : nat -> nat -> Z -> option (list num * list num))
         (self : PartAffinityFieldsGenerator) (ds out : list example),
    transform_dataset make_grid_vectors self ds = Some out ->
    Forall (fun ex : example => dom ex = list_to_set input_keys) ds ->
    Forall (fun ex : example => dom ex = list_to_set output_keys) out.
Proof.
  intros mgv self ds out H Hkeys.
  destruct (transform_dataset_Some_inv mgv self ds out H)
    as [xv [yv [ei [Hall _]]]].
  clear H.
  induction Hall as [|x y ds out Hxy _ IH]; [constructor|].
  inversion Hkeys as [|? ? Hx Hrest]; subst.
  constructor; [|now apply IH].
  destruct (generate_pafs_Some_inv _ _ _ _ _ _ Hxy) as [t [v [_ [_ ->]]]].
  rewrite dom_insert_L, Hx. unfold output_keys.
  rewrite list_to_set_app_L. cbn [list_to_set]. set_solver.
Qed.

Lemma transform_dataset_output_keys_witness :
  Forall (fun ex : example => dom ex = list_to_set output_keys)
    [<["part_affinity_fields"%string := VField (zeros 2 2 1)]> record_plain].
Proof.
  apply (transform_dataset_output_keys make_grid_vectors_spec one_edge_generator
           [record_plain]).
  - apply transform_dataset_no_instances; reflexivity.
  - constructor; [|constructor]. unfold record_plain, input_keys.
    rewrite !dom_insert_L, dom_singleton_L. cbn [list_to_set]. set_solver.
Defined.

(** ** flatten_channels *)

Lemma nth_error_flat_pairs (c : list point) (e : nat) (p : point) :
  nth_error c e = Some p ->
  nth_error (flat_map (fun q : point => [fst q; snd q]) c) (2 * e) = Some (fst p)
  /\ nth_error (flat_map (fun q : point => [fst q; snd q]) c) (2 * e + 1)
     = Some (snd p).
Proof.
  revert e. induction c as [|q c IH]; intros [|e] H; cbn [nth_error] in H;
    try discriminate.
  - injection H as ->. split; reflexivity.
  - destruct (IH e H) as [H1 H2].
    replace (2 * S e)%nat with (S (S (2 * e))) by lia.
    replace (S (S (2 * e)) + 1)%nat with (S (S (2 * e + 1))) by lia.
    cbn [flat_map app nth_error]. split; assumption.
Qed.

(** X13: the layout of the flattened field: channel 2e of the flattened
    tensor is the x-coordinate of the vector of edge e, channel 2e + 1 its
    y-coordinate, at every grid cell; the flattened tensor has twice as many
    channels as there are edges. *)
Theorem flatten_layout :
  forall (f : field) (i j e : nat) (p : point),
    cell f i j e = Some p ->
    entry3 (flatten f) i j (2 * e) = Some (fst p)
    /\ entry3 (flatten f) i j (2 * e + 1) = Some (snd p).
Proof.
  intros f i j e p. unfold cell, entry3, flatten.
  rewrite nth_error_map.
  destruct (nth_error f i) as [row|]; [|discriminate]. cbn [option_map].
  rewrite nth_error_map.
  destruct (nth_error row j) as [c|]; [|discriminate]. cbn [option_map].
  apply nth_error_flat_pairs.
Qed.

Lemma flatten_layout_witness :
  entry3 (flatten [[[ (Fin 1, Fin 2); (Fin 3, Fin 4) ]]]) 0 0 (2 * 1) = Some (Fin 3)
  /\ entry3 (flatten [[[ (Fin 1, Fin 2); (Fin 3, Fin 4) ]]]) 0 0 (2 * 1 + 1)
     = Some (Fin 4).
Proof.
  exact (flatten_layout [[[ (Fin 1, Fin 2); (Fin 3, Fin 4) ]]] 0 0 1 (Fin 3, Fin 4)
           eq_refl).
Defined.

(** ** Errors of the stage *)

(** X14: [generate_pafs] raises on a record without the key "instances", and
    on any record when a grid vector is empty (its last entry is read before
    the instances are filtered); when an instance passes the filter and an
    edge index is not a node index, it raises as well. *)
Theorem generate_pafs_errors :
  forall (self : PartAffinityFieldsGenerator) (xv yv : list num)
         (edge_inds : list (nat * nat)) (ex : example),
    (ex !! "instances"%string = None ->
     generate_pafs self xv yv edge_inds ex = None)
    /\ (xv = [] \/ yv = [] -> generate_pafs self xv yv edge_inds ex = None)
    /\ (forall (t : tensor3) (xmax ymax : num) (a b : nat),
          ex !! "instances"%string = Some (VInstances t) ->
          rect3 t ->
          last xv = Some xmax -> last yv = Some ymax ->
          items (boolean_mask t (in_img xmax ymax t)) <> [] ->
          In (a, b) edge_inds ->
          (dim1 t <= a)%nat \/ (dim1 t <= b)%nat ->
          generate_pafs self xv yv edge_inds ex = None).
Proof.
  intros self xv yv edge_inds ex. rewrite generate_pafs_unfold.
  split; [|split].
  - intros ->. reflexivity.
  - intros Hempty.
    destruct ((ex !! "instances"%string) ≫= as_instances) as [t|]; [|reflexivity].
    cbn [mbind option_bind]. unfold paf_tensor.
    destruct Hempty as [-> | ->]; [reflexivity|].
    destruct (last xv); reflexivity.
  - intros t xmax ymax a b Hinst Hrect Hx Hy Hkept Hin Hout.
    rewrite Hinst. cbn [mbind option_bind as_instances].
    unfold paf_tensor. rewrite Hx, Hy. cbn [mbind option_bind].
    assert (Hedges : edge_inds <> []) by (intros ->; destruct Hin).
    rewrite (get_edge_points_cast_nonempty _ _ Hedges).
    pose proof (get_edge_points_out_of_range
                  (boolean_mask t (in_img xmax ymax t)) edge_inds a b
                  (rect3_boolean_mask xmax ymax t Hrect) Hkept Hin Hout) as Hg.
    rewrite Hg. reflexivity.
Qed.

Lemma generate_pafs_errors_witness :
  generate_pafs one_edge_generator [Fin 1; Fin 3] [Fin 1; Fin 3] [(0, 5)%nat]
    {[ "instances"%string := VInstances (Tensor3 2 [[fin_pt (1, 1); fin_pt (2, 2)]]) ]}
  = None.
Proof.
  apply (proj2 (proj2 (generate_pafs_errors one_edge_generator
                         [Fin 1; Fin 3] [Fin 1; Fin 3] [(0, 5)%nat]
                         {[ "instances"%string :=
                              VInstances (Tensor3 2 [[fin_pt (1, 1); fin_pt (2, 2)]]) ]}))
           (Tensor3 2 [[fin_pt (1, 1); fin_pt (2, 2)]]) (Fin 3) (Fin 3) 0%nat 5%nat).
  - apply lookup_singleton_eq.
  - constructor; [reflexivity | constructor].
  - reflexivity.
  - reflexivity.
  - rewrite boolean_mask_filter. cbn [items List.filter existsb].
    assert (H : point_in_img (Fin 3) (Fin 3) (fin_pt (1, 1)) = true)
      by (apply point_in_img_fin; lra).
    rewrite H. cbn [orb]. discriminate.
  - left. reflexivity.
  - right. cbn. lia.
Defined.

(** ** The length of the vectors of make_pafs *)

(** X16: in exact arithmetic, on a finite grid, for a finite [sigma > 0] and
    an edge with distinct finite endpoints, the vector of [make_pafs] at a
    grid cell has the confidence of the cell as its Euclidean norm: the
    confidence [c] lies between 0 and 1, and the squared norm of the vector
    is [c * c]. *)
Theorem make_pafs_norm_is_confidence :
  forall (xs ys : list R) (edges : list (rpoint * rpoint)) (sigma : R)
         (i j e : nat) (x y : R) (s d : rpoint),
    0 < sigma ->
    nth_error ys i = Some y -> nth_error xs j = Some x ->
    nth_error edges e = Some (s, d) ->
    s <> d ->
    exists c vx vy : R,
      entry3 (make_edge_maps (map Fin xs) (map Fin ys)
                (map (fun e => fin_pt (fst e)) edges)
                (map (fun e => fin_pt (snd e)) edges) (Fin sigma)) i j e
      = Some (Fin c)
      /\ cell (make_pafs (map Fin xs) (map Fin ys)
                 (map (fun e => fin_pt (fst e)) edges)
                 (map (fun e => fin_pt (snd e)) edges) (Fin sigma)) i j e
         = Some (Fin vx, Fin vy)
      /\ 0 <= c <= 1
      /\ vx * vx + vy * vy = c * c
      /\ norm (Fin vx, Fin vy) = Fin c.
Proof.
  intros xs ys edges sigma i j e x y s d Hsig Hy Hx He Hne.
  set (c := confidence sigma (clamped_segment_distance (x, y) s d)).
  set (ux := (fst d - fst s) / sqrt (sq_dist d s)).
  set (uy := (snd d - snd s) / sqrt (sq_dist d s)).
  assert (Hdist : gaussian_pdf (edge_distance (Fin x, Fin y) (fin_pt s) (fin_pt d))
                    (Fin sigma) = Fin c).
  { pose proof (edge_distance_fin (x, y) s d) as Hd. cbv zeta in Hd.
    unfold edge_distance. cbv zeta.
    change (Fin x, Fin y) with (fin_pt (x, y)). rewrite Hd.
    now apply gaussian_pdf_fin. }
  assert (Hys : nth_error (map Fin ys) i = Some (Fin y))
    by (rewrite nth_error_map, Hy; reflexivity).
  assert (Hxs : nth_error (map Fin xs) j = Some (Fin x))
    by (rewrite nth_error_map, Hx; reflexivity).
  assert (Hes : nth_error (map (fun e => fin_pt (fst e)) edges) e = Some (fin_pt s))
    by (rewrite nth_error_map, He; reflexivity).
  assert (Hed : nth_error (map (fun e => fin_pt (snd e)) edges) e = Some (fin_pt d))
    by (rewrite nth_error_map, He; reflexivity).
  pose proof (confidence_range sigma (clamped_segment_distance (x, y) s d) Hsig)
    as Hc. fold c in Hc.
  pose proof (edge_direction_unit s d Hne) as Hunit. cbv zeta in Hunit.
  fold ux uy in Hunit.
  assert (Hsq : c * ux * (c * ux) + c * uy * (c * uy) = c * c).
  { replace (c * ux * (c * ux) + c * uy * (c * uy))
      with (c * c * (ux * ux + uy * uy)) by ring.
    rewrite Hunit. ring. }
  exists c, (c * ux), (c * uy). split; [|split; [|split; [|split]]].
  - rewrite (entry_make_edge_maps _ _ _ _ _ i j e _ _ _ _ Hys Hxs Hes Hed).
    now rewrite Hdist.
  - rewrite (cell_make_pafs_entry _ _ _ _ _ i j e _ _ _ _ Hys Hxs Hes Hed).
    unfold paf_entry. rewrite Hdist, (edge_direction_fin s d Hne). reflexivity.
  - lra.
  - exact Hsq.
  - rewrite norm_fin, Hsq. f_equal. apply sqrt_square. lra.
Qed.

Lemma make_pafs_norm_is_confidence_witness :
  exists c vx vy : R,
    entry3 (make_edge_maps (map Fin [0; 1]) (map Fin [2])
              (map (fun e => fin_pt (fst e)) [((0, 0), (3, 4))])
              (map (fun e => fin_pt (snd e)) [((0, 0), (3, 4))]) (Fin 1)) 0 1 0
    = Some (Fin c)
    /\ cell (make_pafs (map Fin [0; 1]) (map Fin [2])
               (map (fun e => fin_pt (fst e)) [((0, 0), (3, 4))])
               (map (fun e => fin_pt (snd e)) [((0, 0), (3, 4))]) (Fin 1)) 0 1 0
       = Some (Fin vx, Fin vy)
    /\ 0 <= c <= 1
    /\ vx * vx + vy * vy = c * c
    /\ norm (Fin vx, Fin vy) = Fin c.
Proof.
  apply (make_pafs_norm_is_confidence [0; 1] [2] [((0, 0), (3, 4))] 1 0 1 0 1 2
           (0, 0) (3, 4)).
  - lra.
  - reflexivity.
  - reflexivity.
  - reflexivity.
  - intros H. injection H as H1 H2. lra.
Defined.
